(** * node-rate-limiter: the interval rate limiter, embedded and verified

    The limiter class of the repository ([RateLimiter], two revisions of the
    same file) is embedded as state-passing functions over records.  Numbers
    that the code treats as counts, capacities and millisecond timestamps are
    [Z]; the token bucket's [content], which the drip computation makes
    fractional, is a rational [Q].  Every [Date.now()] the code performs is an
    explicit argument, one per read, so that a call is not silently assumed to
    be instantaneous.  The stat observer is an outside party: the model logs
    what it is called with and takes it not to call back into the limiter. *)

From Stdlib Require Import ZArith QArith Qminmax Qround List Lia Bool String.
Import ListNotations.
Local Open Scope Z_scope.

(** ** Outcome of an operation that may throw *)

Inductive error : Type :=
| InvalidArgument.

Inductive result (A : Type) : Type :=
| Ok (a : A)
| Throw (e : error).
Arguments Ok {A} a.
Arguments Throw {A} e.

(** The [interval] argument of the constructors: milliseconds or a unit name. *)
Inductive Interval : Type :=
| Ms (n : Z)
| Unit (name : string).

(** ** TokenBucket *)

Module TokenBucket.

Record t : Type := mk {
  bucketSize : Z;
  tokensPerInterval : Z;
  interval : Z;
  content : Q;
  lastDrip : Z
}.

Definition set_bucketSize (v : Z) (b : t) : t :=
  mk v (tokensPerInterval b) (interval b) (content b) (lastDrip b).
Definition set_tokensPerInterval (v : Z) (b : t) : t :=
  mk (bucketSize b) v (interval b) (content b) (lastDrip b).
Definition set_content (v : Q) (b : t) : t :=
  mk (bucketSize b) (tokensPerInterval b) (interval b) v (lastDrip b).
Definition set_lastDrip (v : Z) (b : t) : t :=
  mk (bucketSize b) (tokensPerInterval b) (interval b) (content b) v.

(** Modelled from the spec: the file [token-bucket.js] that the limiter
    requires is not among the sources.  Section 3 of the specification fixes
    the unit table {second=1000, minute=60000, hour=3600000, day=86400000};
    any other unit name is an [InvalidArgument]. *)
Definition resolve (i : Interval) : result Z :=
  match i with
  | Ms n => Ok n
  | Unit name =>
      if String.eqb name "second" then Ok 1000
      else if String.eqb name "minute" then Ok 60000
      else if String.eqb name "hour" then Ok 3600000
      else if String.eqb name "day" then Ok 86400000
      else Throw InvalidArgument
  end.

(** Modelled from the spec: the constructor of the missing
    [token-bucket.js] (section 4.1, Construct): the interval is resolved,
    [content] starts at 0 and [lastDrip] at the clock reading [now]. *)
Definition new (bucketSize tokensPerInterval : Z) (i : Interval) (now : Z)
  : result t :=
  match resolve i with
  | Ok ms => Ok (mk bucketSize tokensPerInterval ms 0%Q now)
  | Throw e => Throw e
  end.

(** Modelled from the spec: the lazy replenishment of the missing
    [token-bucket.js] (section 4.1, accept, step 2):
    tokens to add = elapsed / interval * tokensPerInterval,
    content = min(bucketSize, content + tokens), lastDrip = now. *)
Definition dripAmount (now : Z) (b : t) : Q :=
  (inject_Z (now - lastDrip b) / inject_Z (interval b)
     * inject_Z (tokensPerInterval b))%Q.

Definition drip (now : Z) (b : t) : t :=
  let b := set_content
             (Qmin (inject_Z (bucketSize b)) (content b + dripAmount now b)%Q) b in
  set_lastDrip now b.

(** Modelled from the spec: [accept] of the missing [token-bucket.js]
    (section 4.1, accept, steps 1 to 3): a request above [bucketSize] is
    refused without any mutation; otherwise the bucket drips and the request
    is debited when [content >= count]. *)
Definition accept (count : Z) (now : Z) (b : t) : bool * t :=
  if count >? bucketSize b then (false, b)
  else
    let b := drip now b in
    if Qle_bool (inject_Z count) (content b)
    then (true, set_content (content b - inject_Z count)%Q b)
    else (false, b).

End TokenBucket.

(** ** The stat snapshot handed to [getStat] callers and to the observer *)

Module Stat.
Record t : Type := mk {
  accepted : Z;
  incoming : Z;
  averageTime : Z;
  limit : Z
}.
End Stat.

(** The clock readings of one [RateLimiter.accept] call, in program order:
    the [Date.now()] of [accept] itself, the one of the [getStat] call that
    builds the observer's argument, and the one of the bucket's drip. *)
Record Clock : Type := {
  now_accept : Z;
  now_getStat : Z;
  now_drip : Z
}.

(** A call during which the clock does not tick. *)
Definition instant (now : Z) : Clock :=
  {| now_accept := now; now_getStat := now; now_drip := now |}.

(** ** RateLimiter, revision with [setLimit] *)

Module RateLimiter.

(** [statCallback] records whether an observer is registered (the code
    tests the field for truthiness); what the observer is called with is
    collected in the [fired] log of an [accept] outcome. *)
Record t : Type := mk {
  tokenBucket : TokenBucket.t;
  curIntervalStart : Z;
  tokensThisInterval : Z;
  incomingThisInterval : Z;
  incoming : Z;
  accepted : Z;
  averageTime : Z;
  statCallback : bool;
  timeSum : Z
}.

Definition set_tokenBucket (v : TokenBucket.t) (s : t) : t :=
  mk v (curIntervalStart s) (tokensThisInterval s) (incomingThisInterval s)
     (incoming s) (accepted s) (averageTime s) (statCallback s) (timeSum s).
Definition set_curIntervalStart (v : Z) (s : t) : t :=
  mk (tokenBucket s) v (tokensThisInterval s) (incomingThisInterval s)
     (incoming s) (accepted s) (averageTime s) (statCallback s) (timeSum s).
Definition set_tokensThisInterval (v : Z) (s : t) : t :=
  mk (tokenBucket s) (curIntervalStart s) v (incomingThisInterval s)
     (incoming s) (accepted s) (averageTime s) (statCallback s) (timeSum s).
Definition set_incomingThisInterval (v : Z) (s : t) : t :=
  mk (tokenBucket s) (curIntervalStart s) (tokensThisInterval s) v
     (incoming s) (accepted s) (averageTime s) (statCallback s) (timeSum s).
Definition set_incoming (v : Z) (s : t) : t :=
  mk (tokenBucket s) (curIntervalStart s) (tokensThisInterval s)
     (incomingThisInterval s) v (accepted s) (averageTime s) (statCallback s)
     (timeSum s).
Definition set_accepted (v : Z) (s : t) : t :=
  mk (tokenBucket s) (curIntervalStart s) (tokensThisInterval s)
     (incomingThisInterval s) (incoming s) v (averageTime s) (statCallback s)
     (timeSum s).
Definition set_averageTime (v : Z) (s : t) : t :=
  mk (tokenBucket s) (curIntervalStart s) (tokensThisInterval s)
     (incomingThisInterval s) (incoming s) (accepted s) v (statCallback s)
     (timeSum s).
Definition set_timeSum (v : Z) (s : t) : t :=
  mk (tokenBucket s) (curIntervalStart s) (tokensThisInterval s)
     (incomingThisInterval s) (incoming s) (accepted s) (averageTime s)
     (statCallback s) v.

(** [constructor]: the bucket is built first (its own clock read is
    [now_bucket]), force-filled, and the window opens at [now]. *)
Definition new (tokensPerInterval : Z) (i : Interval) (statCallback : bool)
    (now_bucket now : Z) : result t :=
  match TokenBucket.new tokensPerInterval tokensPerInterval i now_bucket with
  | Throw e => Throw e
  | Ok b =>
      let b := TokenBucket.set_content (inject_Z tokensPerInterval) b in
      Ok (mk b now 0 0 0 0 0 statCallback 0)
  end.

(** [getStat]: reads the clock and the fields, assigns nothing. *)
Definition getStat (now : Z) (s : t) : Stat.t :=
  if now - curIntervalStart s >=? TokenBucket.interval (tokenBucket s)
  then Stat.mk 0 0 0 (TokenBucket.tokensPerInterval (tokenBucket s))
  else Stat.mk (accepted s) (incoming s) (averageTime s)
               (TokenBucket.tokensPerInterval (tokenBucket s)).

(** The body of the rollover branch of [accept], assignment by assignment
    and in the order of the source: [curIntervalStart] is overwritten
    before the three tests against twice the interval read it back. *)
Definition rollover (now now_stat : Z) (s : t) : t * list Stat.t :=
  let s := set_curIntervalStart now s in
  let s := set_accepted
             (if now - curIntervalStart s
                   >=? TokenBucket.interval (tokenBucket s) * 2
              then 0 else tokensThisInterval s) s in
  let s := set_incoming
             (if now - curIntervalStart s
                   >=? TokenBucket.interval (tokenBucket s) * 2
              then 0 else incomingThisInterval s) s in
  let s := set_averageTime
             (if now - curIntervalStart s
                   >=? TokenBucket.interval (tokenBucket s) * 2
              then 0
              else if tokensThisInterval s =? 0 then 0
                   else Qfloor (inject_Z (timeSum s)
                                  / inject_Z (tokensThisInterval s))%Q) s in
  let s := set_tokensThisInterval 0 s in
  let s := set_incomingThisInterval 0 s in
  let s := set_timeSum 0 s in
  (s, if statCallback s then [getStat now_stat s] else []).

(** What one [accept] call produces: the returned boolean, the arguments
    the observer was called with (in order), and the limiter afterwards. *)
Record outcome : Type := Outcome {
  ret : bool;
  fired : list Stat.t;
  after : t
}.

Definition accept (count : Z) (clk : Clock) (s : t) : outcome :=
  let s := set_incomingThisInterval (incomingThisInterval s + 1) s in
  if count >? TokenBucket.bucketSize (tokenBucket s) then Outcome false [] s
  else
    let now := now_accept clk in
    let '(s, calls) :=
      if now - curIntervalStart s >=? TokenBucket.interval (tokenBucket s)
      then rollover now (now_getStat clk) s
      else (s, []) in
    if count >? TokenBucket.tokensPerInterval (tokenBucket s)
                  - tokensThisInterval s
    then Outcome false calls s
    else
      let '(r, b) := TokenBucket.accept count (now_drip clk) (tokenBucket s) in
      let s := set_tokenBucket b s in
      let s := if r then set_tokensThisInterval (tokensThisInterval s + count) s
               else s in
      Outcome r calls s.

Definition addTime (time : Z) (s : t) : t :=
  set_timeSum (timeSum s + time) s.

Definition setLimit (tokensPerInterval : Z) (s : t) : t :=
  let b := TokenBucket.set_tokensPerInterval tokensPerInterval (tokenBucket s) in
  let b := TokenBucket.set_bucketSize tokensPerInterval b in
  set_tokenBucket b s.

(** The [limit] accessor pair. *)
Definition set_limit (tokensPerInterval : Z) (s : t) : t :=
  setLimit tokensPerInterval s.
Definition get_limit (s : t) : Z :=
  TokenBucket.tokensPerInterval (tokenBucket s).

End RateLimiter.

(** ** RateLimiter, revision of [lib/rate-limiter.js] ([up], [down], [updateLimit]) *)

Module LibRateLimiter.

(** [_goingDown] is not assigned by the constructor; the code only tests it
    for truthiness, so the missing field reads as [false]. *)
Record t : Type := mk {
  tokenBucket : TokenBucket.t;
  curIntervalStart : Z;
  _tokensPerIntervalConfig : Z;
  tokensThisInterval : Z;
  incomingThisInterval : Z;
  _timeSum : Z;
  incoming : Z;
  accepted : Z;
  averageTime : Z;
  statCallback : bool;
  _goingDown : bool
}.

Definition set_tokenBucket (v : TokenBucket.t) (s : t) : t :=
  mk v (curIntervalStart s) (_tokensPerIntervalConfig s) (tokensThisInterval s)
     (incomingThisInterval s) (_timeSum s) (incoming s) (accepted s)
     (averageTime s) (statCallback s) (_goingDown s).
Definition set_curIntervalStart (v : Z) (s : t) : t :=
  mk (tokenBucket s) v (_tokensPerIntervalConfig s) (tokensThisInterval s)
     (incomingThisInterval s) (_timeSum s) (incoming s) (accepted s)
     (averageTime s) (statCallback s) (_goingDown s).
Definition set_tokensPerIntervalConfig (v : Z) (s : t) : t :=
  mk (tokenBucket s) (curIntervalStart s) v (tokensThisInterval s)
     (incomingThisInterval s) (_timeSum s) (incoming s) (accepted s)
     (averageTime s) (statCallback s) (_goingDown s).
Definition set_tokensThisInterval (v : Z) (s : t) : t :=
  mk (tokenBucket s) (curIntervalStart s) (_tokensPerIntervalConfig s) v
     (incomingThisInterval s) (_timeSum s) (incoming s) (accepted s)
     (averageTime s) (statCallback s) (_goingDown s).
Definition set_incomingThisInterval (v : Z) (s : t) : t :=
  mk (tokenBucket s) (curIntervalStart s) (_tokensPerIntervalConfig s)
     (tokensThisInterval s) v (_timeSum s) (incoming s) (accepted s)
     (averageTime s) (statCallback s) (_goingDown s).
Definition set_timeSum (v : Z) (s : t) : t :=
  mk (tokenBucket s) (curIntervalStart s) (_tokensPerIntervalConfig s)
     (tokensThisInterval s) (incomingThisInterval s) v (incoming s)
     (accepted s) (averageTime s) (statCallback s) (_goingDown s).
Definition set_incoming (v : Z) (s : t) : t :=
  mk (tokenBucket s) (curIntervalStart s) (_tokensPerIntervalConfig s)
     (tokensThisInterval s) (incomingThisInterval s) (_timeSum s) v
     (accepted s) (averageTime s) (statCallback s) (_goingDown s).
Definition set_accepted (v : Z) (s : t) : t :=
  mk (tokenBucket s) (curIntervalStart s) (_tokensPerIntervalConfig s)
     (tokensThisInterval s) (incomingThisInterval s) (_timeSum s)
     (incoming s) v (averageTime s) (statCallback s) (_goingDown s).
Definition set_averageTime (v : Z) (s : t) : t :=
  mk (tokenBucket s) (curIntervalStart s) (_tokensPerIntervalConfig s)
     (tokensThisInterval s) (incomingThisInterval s) (_timeSum s)
     (incoming s) (accepted s) v (statCallback s) (_goingDown s).
Definition set_goingDown (v : bool) (s : t) : t :=
  mk (tokenBucket s) (curIntervalStart s) (_tokensPerIntervalConfig s)
     (tokensThisInterval s) (incomingThisInterval s) (_timeSum s)
     (incoming s) (accepted s) (averageTime s) (statCallback s) v.

Definition new (tokensPerInterval : Z) (i : Interval) (statCallback : bool)
    (now_bucket now : Z) : result t :=
  match TokenBucket.new tokensPerInterval tokensPerInterval i now_bucket with
  | Throw e => Throw e
  | Ok b =>
      let b := TokenBucket.set_content (inject_Z tokensPerInterval) b in
      Ok (mk b now tokensPerInterval 0 0 0 0 0 0 statCallback false)
  end.

Definition getStat (now : Z) (s : t) : Stat.t :=
  if now - curIntervalStart s >=? TokenBucket.interval (tokenBucket s)
  then Stat.mk 0 0 0 (TokenBucket.tokensPerInterval (tokenBucket s))
  else Stat.mk (accepted s) (incoming s) (averageTime s)
               (TokenBucket.tokensPerInterval (tokenBucket s)).

Definition rollover (now now_stat : Z) (s : t) : t * list Stat.t :=
  let s := set_curIntervalStart now s in
  let s := set_accepted
             (if now - curIntervalStart s
                   >=? TokenBucket.interval (tokenBucket s) * 2
              then 0 else tokensThisInterval s) s in
  let s := set_incoming
             (if now - curIntervalStart s
                   >=? TokenBucket.interval (tokenBucket s) * 2
              then 0 else incomingThisInterval s) s in
  let s := set_averageTime
             (if now - curIntervalStart s
                   >=? TokenBucket.interval (tokenBucket s) * 2
              then 0
              else if tokensThisInterval s =? 0 then 0
                   else Qfloor (inject_Z (_timeSum s)
                                  / inject_Z (tokensThisInterval s))%Q) s in
  let s := set_tokensThisInterval 0 s in
  let s := set_incomingThisInterval 0 s in
  let s := set_timeSum 0 s in
  let s := set_goingDown false s in
  (s, if statCallback s then [getStat now_stat s] else []).

Record outcome : Type := Outcome {
  ret : bool;
  fired : list Stat.t;
  after : t
}.

Definition accept (count : Z) (clk : Clock) (s : t) : outcome :=
  let s := set_incomingThisInterval (incomingThisInterval s + 1) s in
  if count >? TokenBucket.bucketSize (tokenBucket s) then Outcome false [] s
  else
    let now := now_accept clk in
    let '(s, calls) :=
      if now - curIntervalStart s >=? TokenBucket.interval (tokenBucket s)
      then rollover now (now_getStat clk) s
      else (s, []) in
    if count >? TokenBucket.tokensPerInterval (tokenBucket s)
                  - tokensThisInterval s
    then Outcome false calls s
    else
      let '(r, b) := TokenBucket.accept count (now_drip clk) (tokenBucket s) in
      let s := set_tokenBucket b s in
      let s := if r then set_tokensThisInterval (tokensThisInterval s + count) s
               else s in
      Outcome r calls s.

Definition up (count max : Z) (s : t) : t :=
  let b := tokenBucket s in
  let b := TokenBucket.set_tokensPerInterval
             (TokenBucket.tokensPerInterval b + count) b in
  let b := if TokenBucket.tokensPerInterval b >? max
           then TokenBucket.set_tokensPerInterval max b else b in
  set_tokenBucket b s.

Definition down (count min : Z) (s : t) : t :=
  let b := tokenBucket s in
  let b := TokenBucket.set_tokensPerInterval
             (if _goingDown s then TokenBucket.tokensPerInterval b - count
              else tokensThisInterval s - count) b in
  let s := set_goingDown true (set_tokenBucket b s) in
  let b := tokenBucket s in
  if TokenBucket.tokensPerInterval b <? min
  then set_tokenBucket (TokenBucket.set_tokensPerInterval min b) s
  else s.

Definition addTime (time : Z) (s : t) : t :=
  set_timeSum (_timeSum s + time) s.

Definition setTokensPerInterval (tokensPerInterval : Z) (s : t) : t :=
  let b := TokenBucket.set_tokensPerInterval tokensPerInterval (tokenBucket s) in
  let b := TokenBucket.set_bucketSize tokensPerInterval b in
  set_tokenBucket b s.

Definition updateLimit (tokensPerInterval : Z) (s : t) : t :=
  if _tokensPerIntervalConfig s =? tokensPerInterval then s
  else
    let s := set_tokensPerIntervalConfig tokensPerInterval s in
    setTokensPerInterval
      (Z.min (TokenBucket.tokensPerInterval (tokenBucket s)) tokensPerInterval) s.

(** The fields the two revisions share. *)
Definition forget (s : t) : RateLimiter.t :=
  RateLimiter.mk (tokenBucket s) (curIntervalStart s) (tokensThisInterval s)
    (incomingThisInterval s) (incoming s) (accepted s) (averageTime s)
    (statCallback s) (_timeSum s).

End LibRateLimiter.

(** ** Call sequences on a limiter *)

Module Trace.
Import RateLimiter.

Inductive call : Type :=
| Accept (count : Z) (clk : Clock)
| AddTime (time : Z)
| GetStat (now : Z)
| SetLimit (tokensPerInterval : Z).

(** The limiter after one call; [getStat] hands back the limiter it got. *)
Definition step (c : call) (s : t) : t :=
  match c with
  | Accept count clk => after (accept count clk s)
  | AddTime time => addTime time s
  | GetStat now => let _ := getStat now s in s
  | SetLimit v => setLimit v s
  end.

Fixpoint run (cs : list call) (s : t) : t :=
  match cs with
  | [] => s
  | c :: cs' => run cs' (step c s)
  end.

(** Does this [accept] call take the rollover branch? *)
Definition rolls (count : Z) (clk : Clock) (s : t) : bool :=
  negb (count >? TokenBucket.bucketSize (tokenBucket s))
  && (now_accept clk - curIntervalStart s
        >=? TokenBucket.interval (tokenBucket s)).

(** What a caller observes of each [accept]: the count asked for, the
    answer, and whether the call opened a new window. *)
Record event : Type := Event {
  ev_count : Z;
  ev_ret : bool;
  ev_rolled : bool
}.

Fixpoint events (cs : list call) (s : t) : list event :=
  match cs with
  | [] => []
  | Accept count clk :: cs' =>
      Event count (ret (accept count clk s)) (rolls count clk s)
        :: events cs' (step (Accept count clk) s)
  | c :: cs' => events cs' (step c s)
  end.

(** The events of the window that is open at the end: those from the last
    rollover on (all of them when no call rolled the window over). *)
Fixpoint currentWindow (es : list event) : list event :=
  match es with
  | [] => []
  | e :: es' => if existsb ev_rolled es' then currentWindow es' else e :: es'
  end.

Fixpoint acceptedSum (es : list event) : Z :=
  match es with
  | [] => 0
  | e :: es' => (if ev_ret e then ev_count e else 0) + acceptedSum es'
  end.

(** A call sequence in which every [setLimit v] has [v] non-negative and
    at least the tokens already granted in the window open at that call. *)
Fixpoint admissible (cs : list call) (s : t) : Prop :=
  match cs with
  | [] => True
  | c :: cs' =>
      match c with
      | SetLimit v => 0 <= v /\ tokensThisInterval s <= v
      | _ => True
      end /\ admissible cs' (step c s)
  end.

Definition isSetLimit (c : call) : bool :=
  match c with SetLimit _ => true | _ => false end.

(** A call sequence whose clock reads never go back before [t]: each
    [accept] and [getStat] reads a time at or after the previous read. *)
Fixpoint chronological (t : Z) (cs : list call) : Prop :=
  match cs with
  | [] => True
  | Accept _ clk :: cs' => t <= now_accept clk /\ chronological (now_accept clk) cs'
  | GetStat now :: cs' => t <= now /\ chronological now cs'
  | _ :: cs' => chronological t cs'
  end.

End Trace.

(** ** Notions used in the statements *)

Section Notions.
Import RateLimiter.

(** The limiter [new RateLimiter(2, 1000, observer)] built at time 0. *)
Definition sample : RateLimiter.t :=
  RateLimiter.mk (TokenBucket.mk 2 2 1000 (inject_Z 2) 0) 0 0 0 0 0 0 true 0.

(** The average the rollover stores when it copies the counters. *)
Definition windowAverage (s : t) : Z :=
  if tokensThisInterval s =? 0 then 0
  else Qfloor (inject_Z (timeSum s) / inject_Z (tokensThisInterval s))%Q.

(** The window cap holds: the limit is not negative and the tokens granted
    in the open window do not exceed it. *)
Definition capped (s : t) : Prop :=
  0 <= TokenBucket.tokensPerInterval (tokenBucket s)
  /\ tokensThisInterval s <= TokenBucket.tokensPerInterval (tokenBucket s).

(** Inside one window: limit [n], interval [ivl], window opened at [t0],
    [k] tokens granted so far, and at least [n - k] tokens in the bucket. *)
Definition inWindow (n ivl t0 k : Z) (s : t) : Prop :=
  TokenBucket.bucketSize (tokenBucket s) = n
  /\ TokenBucket.tokensPerInterval (tokenBucket s) = n
  /\ TokenBucket.interval (tokenBucket s) = ivl
  /\ curIntervalStart s = t0
  /\ tokensThisInterval s = k
  /\ (inject_Z (n - k) <= TokenBucket.content (tokenBucket s))%Q.

(** The clock reads of one [accept] call come in program order and fall
    between [lo] and [hi]. *)
Definition ticksWithin (lo hi : Z) (clk : Clock) : Prop :=
  lo <= now_accept clk
  /\ now_accept clk <= now_getStat clk
  /\ now_getStat clk <= now_drip clk
  /\ now_drip clk <= hi.

End Notions.

(** ** The [throttle] adapter *)

Module Throttle.
Import RateLimiter.

(** [interval || 1000]: a missing interval, the number 0 and the empty
    string are falsy and give 1000 ms; anything else is passed on. *)
Definition orDefault (interval : option Interval) : Interval :=
  match interval with
  | None => Ms 1000
  | Some (Ms 0) => Ms 1000
  | Some (Unit EmptyString) => Ms 1000
  | Some i => i
  end.

(** [throttle(fn, rate, interval)] builds its private limiter, without a
    stat observer; what it returns is the closure [invoke fn] around it. *)
Definition throttle (rate : Z) (interval : option Interval)
    (now_bucket now : Z) : result t :=
  new rate (orDefault interval) false now_bucket now.

(** One call of the returned closure: [fn] runs, and its result is handed
    back, only when the limiter accepts one token; otherwise the closure
    returns nothing. *)
Definition invoke {A B : Type} (fn : A -> B) (args : A) (clk : Clock)
    (limiter : t) : option B * t :=
  let o := accept 1 clk limiter in
  if ret o then (Some (fn args), after o) else (None, after o).

Fixpoint invokeAll {A B : Type} (fn : A -> B) (calls : list (A * Clock))
    (limiter : t) : list (option B) * t :=
  match calls with
  | [] => ([], limiter)
  | (args, clk) :: calls' =>
      let '(r, limiter) := invoke fn args clk limiter in
      let '(rs, limiter) := invokeAll fn calls' limiter in
      (r :: rs, limiter)
  end.

(** What the throttle's limiter satisfies from its creation on: the limit
    is [rate], and the tokens granted in the open window lie between 0 and
    the limit. *)
Definition budgeted (rate : Z) (l : t) : Prop :=
  TokenBucket.tokensPerInterval (tokenBucket l) = rate
  /\ 0 <= tokensThisInterval l <= rate.

(** The limiter of [throttle(fn, 2)] created at time 0. *)
Definition sample : t :=
  mk (TokenBucket.mk 2 2 1000 (inject_Z 2) 0) 0 0 0 0 0 0 false 0.

(** How many of the calls reached [fn]. *)
Definition reached {B : Type} (rs : list (option B)) : nat :=
  List.length
    (filter (fun r => match r with Some _ => true | None => false end) rs).

End Throttle.

(** ** What a caller is handed over a call sequence *)

Inductive answer : Type :=
| Accepted (r : bool)
| Reported (st : Stat.t)
| Done.

Module History.
Import RateLimiter Trace.

(** The value each call returns. *)
Fixpoint answers (cs : list call) (s : t) : list answer :=
  match cs with
  | [] => []
  | c :: cs' =>
      match c with
      | Accept count clk => Accepted (ret (accept count clk s))
      | GetStat now => Reported (getStat now s)
      | _ => Done
      end :: answers cs' (step c s)
  end.

(** The last clock reading made by [accept] or [getStat] in a call
    sequence, [t] if there is none. *)
Fixpoint lastReading (t : Z) (cs : list call) : Z :=
  match cs with
  | [] => t
  | Accept _ clk :: cs' => lastReading (now_accept clk) cs'
  | GetStat now :: cs' => lastReading now cs'
  | _ :: cs' => lastReading t cs'
  end.

(** Everything the observer was called with, in order. *)
Fixpoint notifications (cs : list call) (s : t) : list Stat.t :=
  match cs with
  | [] => []
  | Accept count clk :: cs' =>
      fired (accept count clk s)
        ++ notifications cs' (step (Accept count clk) s)
  | c :: cs' => notifications cs' (step c s)
  end.

End History.

(** ** Call sequences on the [lib/rate-limiter.js] revision *)

Module LibTrace.
Import LibRateLimiter.

Inductive call : Type :=
| Accept (count : Z) (clk : Clock)
| AddTime (time : Z)
| GetStat (now : Z)
| SetTokensPerInterval (tokensPerInterval : Z)
| Up (count max : Z)
| Down (count min : Z)
| UpdateLimit (tokensPerInterval : Z).

Definition step (c : call) (s : t) : t :=
  match c with
  | Accept count clk => after (accept count clk s)
  | AddTime time => addTime time s
  | GetStat now => let _ := getStat now s in s
  | SetTokensPerInterval v => setTokensPerInterval v s
  | Up count max => up count max s
  | Down count min => down count min s
  | UpdateLimit v => updateLimit v s
  end.

Fixpoint run (cs : list call) (s : t) : t :=
  match cs with
  | [] => s
  | c :: cs' => run cs' (step c s)
  end.

Fixpoint answers (cs : list call) (s : t) : list answer :=
  match cs with
  | [] => []
  | c :: cs' =>
      match c with
      | Accept count clk => Accepted (ret (accept count clk s))
      | GetStat now => Reported (getStat now s)
      | _ => Done
      end :: answers cs' (step c s)
  end.

Fixpoint notifications (cs : list call) (s : t) : list Stat.t :=
  match cs with
  | [] => []
  | Accept count clk :: cs' =>
      fired (accept count clk s)
        ++ notifications cs' (step (Accept count clk) s)
  | c :: cs' => notifications cs' (step c s)
  end.

(** The calls that both revisions offer; [setLimit] is named
    [setTokensPerInterval] in this one. *)
Definition ofShared (c : Trace.call) : call :=
  match c with
  | Trace.Accept count clk => Accept count clk
  | Trace.AddTime time => AddTime time
  | Trace.GetStat now => GetStat now
  | Trace.SetLimit v => SetTokensPerInterval v
  end.

(** Does this [accept] call take the rollover branch? *)
Definition rolls (count : Z) (clk : Clock) (s : t) : bool :=
  negb (count >? TokenBucket.bucketSize (tokenBucket s))
  && (now_accept clk - curIntervalStart s
        >=? TokenBucket.interval (tokenBucket s)).

End LibTrace.

(** The limiter [new RateLimiter(2, 1000, observer)] of
    [lib/rate-limiter.js], built at time 0. *)
Definition libSample : LibRateLimiter.t :=
  LibRateLimiter.mk (TokenBucket.mk 2 2 1000 (inject_Z 2) 0)
    0 2 0 0 0 0 0 0 true false.

(** The clock reads of successive [accept] calls, each in program order,
    none before [prev] and none after [hi]. *)
Fixpoint inOrderWithin (prev hi : Z) (clks : list Clock) : Prop :=
  match clks with
  | [] => True
  | clk :: clks' =>
      (prev <= now_accept clk
       /\ now_accept clk <= now_getStat clk
       /\ now_getStat clk <= now_drip clk
       /\ now_drip clk <= hi)
      /\ inOrderWithin (now_drip clk) hi clks'
  end.

(** * Verification *)

(** Turn the source's [>?] and [>=?] tests into [<?] and [<=?] and split on
    one of them, leaving the order fact in the context. *)
Ltac flip_tests := rewrite ?Z.gtb_ltb, ?Z.geb_leb in *.
Ltac split_test :=
  match goal with
  | |- context [?a <? ?b] => destruct (Z.ltb_spec a b)
  | |- context [?a <=? ?b] => destruct (Z.leb_spec a b)
  end.
Ltac tests := flip_tests; repeat split_test; try lia.

(** ** The token bucket *)

Section Bucket.
Import TokenBucket.

(** [accept] assigns [content] and [lastDrip] only. *)
Lemma bucket_accept_frame (count now : Z) (b : t) :
  let b' := snd (accept count now b) in
  bucketSize b' = bucketSize b
  /\ tokensPerInterval b' = tokensPerInterval b
  /\ interval b' = interval b.
Proof.
  unfold accept. destruct (count >? bucketSize b); cbn; auto.
  destruct (Qle_bool _ _); cbn; auto.
Qed.

Lemma bucket_accept_oversized (count now : Z) (b : t) :
  bucketSize b < count -> accept count now b = (false, b).
Proof. intros H. unfold accept. tests. reflexivity. Qed.

(** With a clock that has not gone back, a positive interval and a
    non-negative rate, a drip adds a non-negative amount. *)
Lemma dripAmount_nonneg (now : Z) (b : t) :
  lastDrip b <= now -> 0 < interval b -> 0 <= tokensPerInterval b ->
  (0 <= dripAmount now b)%Q.
Proof.
  intros Hnow Hint Hrate. unfold dripAmount.
  apply Qmult_le_0_compat.
  - apply Qle_shift_div_l.
    + replace 0%Q with (inject_Z 0) by reflexivity. rewrite <- Zlt_Qlt. exact Hint.
    + rewrite Qmult_0_l. replace 0%Q with (inject_Z 0) by reflexivity.
      rewrite <- Zle_Qle. lia.
  - replace 0%Q with (inject_Z 0) by reflexivity. rewrite <- Zle_Qle. exact Hrate.
Qed.

(** No time elapsed: nothing is added, whatever the rate. *)
Lemma dripAmount_same_instant (b : t) :
  (dripAmount (lastDrip b) b == 0)%Q.
Proof.
  unfold dripAmount. rewrite Z.sub_diag. unfold Qdiv.
  change (inject_Z 0) with 0%Q. rewrite !Qmult_0_l. reflexivity.
Qed.

(** The debit decision after the drip, as an order fact on rationals. *)
Lemma bucket_accept_true (count now : Z) (b : t) :
  count <= bucketSize b ->
  (inject_Z count <= content b + dripAmount now b)%Q ->
  fst (accept count now b) = true.
Proof.
  intros Hsize Hle. unfold accept. flip_tests.
  destruct (Z.ltb_spec (bucketSize b) count); [lia|].
  cbn.
  destruct (Qle_bool _ _) eqn:E; [reflexivity|].
  assert (Qle_bool (inject_Z count)
            (Qmin (inject_Z (bucketSize b)) (content b + dripAmount now b)) = true)
    as E'.
  { apply Qle_bool_iff. apply Q.min_glb; [|exact Hle].
    rewrite <- Zle_Qle. exact Hsize. }
  rewrite E' in E. discriminate E.
Qed.

(** What is left after an accepted request: the dripped content, capped,
    minus the request. *)
Lemma bucket_accept_content (count now : Z) (b : t) :
  fst (accept count now b) = true ->
  content (snd (accept count now b))
  = (Qmin (inject_Z (bucketSize b)) (content b + dripAmount now b)
     - inject_Z count)%Q
  /\ lastDrip (snd (accept count now b)) = now.
Proof.
  unfold accept. destruct (count >? bucketSize b); cbn; [discriminate|].
  destruct (Qle_bool _ _); cbn; [auto|discriminate].
Qed.

End Bucket.

(** ** Single calls on the limiter *)

(** [Math.floor] of a quotient of integers is Euclidean division rounding
    down, for either sign of the divisor. *)
Lemma floor_quotient (a b : Z) :
  b <> 0 -> Qfloor (inject_Z a / inject_Z b)%Q = a / b.
Proof.
  intros Hb. destruct b as [|p|p]; [contradiction| |]; cbn.
  - rewrite Z.mul_1_r. reflexivity.
  - rewrite <- (Z.div_opp_opp a (Z.neg p)) by discriminate.
    cbn. f_equal. lia.
Qed.

Section Calls.
Import RateLimiter.

(** A request above [bucketSize] stops at the first test: only the
    incoming counter has been touched. *)
Lemma accept_oversized (count : Z) (clk : Clock) (s : t) :
  TokenBucket.bucketSize (tokenBucket s) < count ->
  accept count clk s
  = Outcome false [] (set_incomingThisInterval (incomingThisInterval s + 1) s).
Proof. intros H. unfold accept. cbn. tests. reflexivity. Qed.

(** With a positive interval the tests against twice the interval compare
    zero elapsed time, so the rollover always copies the counters. *)
Lemma rollover_state (now now_stat : Z) (s : t) :
  0 < TokenBucket.interval (tokenBucket s) ->
  fst (rollover now now_stat s)
  = mk (tokenBucket s) now 0 0 (incomingThisInterval s) (tokensThisInterval s)
       (windowAverage s) (statCallback s) 0.
Proof.
  intros Hint. unfold rollover, windowAverage. cbn.
  rewrite Z.sub_diag. tests. reflexivity.
Qed.

(** With an interval that is zero or negative every test against twice the
    interval succeeds, and the rollover stores zeros. *)
Lemma rollover_state_degenerate (now now_stat : Z) (s : t) :
  TokenBucket.interval (tokenBucket s) <= 0 ->
  fst (rollover now now_stat s)
  = mk (tokenBucket s) now 0 0 0 0 0 (statCallback s) 0.
Proof.
  intros Hint. unfold rollover. cbn.
  rewrite Z.sub_diag. tests. reflexivity.
Qed.

Lemma rollover_fired (now now_stat : Z) (s : t) :
  snd (rollover now now_stat s)
  = if statCallback s
    then [getStat now_stat (fst (rollover now now_stat s))]
    else [].
Proof. reflexivity. Qed.

(** [accept] on the path that passes the size test, in terms of the state
    [w] in which the window test left the limiter. *)
Lemma accept_sized (count : Z) (clk : Clock) (s : t) :
  count <= TokenBucket.bucketSize (tokenBucket s) ->
  let s1 := set_incomingThisInterval (incomingThisInterval s + 1) s in
  let wc := if now_accept clk - curIntervalStart s
                 >=? TokenBucket.interval (tokenBucket s)
            then rollover (now_accept clk) (now_getStat clk) s1
            else (s1, []) in
  let w := fst wc in
  accept count clk s
  = if count >? TokenBucket.tokensPerInterval (tokenBucket w)
                  - tokensThisInterval w
    then Outcome false (snd wc) w
    else
      let rb := TokenBucket.accept count (now_drip clk) (tokenBucket w) in
      Outcome (fst rb) (snd wc)
        (if fst rb
         then set_tokensThisInterval (tokensThisInterval w + count)
                (set_tokenBucket (snd rb) w)
         else set_tokenBucket (snd rb) w).
Proof.
  intros Hsize. unfold accept. cbn.
  replace (count >? TokenBucket.bucketSize (tokenBucket s)) with false
    by (symmetry; rewrite Z.gtb_ltb; apply Z.ltb_ge; exact Hsize).
  destruct (now_accept clk - curIntervalStart s
              >=? TokenBucket.interval (tokenBucket s)).
  - destruct (rollover _ _ _) as [w calls]. cbn.
    destruct (count >? _); [reflexivity|].
    destruct (TokenBucket.accept _ _ _) as [[|] b]; reflexivity.
  - cbn.
    destruct (count >? _); [reflexivity|].
    destruct (TokenBucket.accept _ _ _) as [[|] b]; reflexivity.
Qed.

(** Whatever the path, [accept] leaves the rate, the capacity and the
    interval of the bucket as they were. *)
Lemma accept_bucket_frame (count : Z) (clk : Clock) (s : t) :
  let b' := tokenBucket (after (accept count clk s)) in
  TokenBucket.bucketSize b' = TokenBucket.bucketSize (tokenBucket s)
  /\ TokenBucket.tokensPerInterval b' = TokenBucket.tokensPerInterval (tokenBucket s)
  /\ TokenBucket.interval b' = TokenBucket.interval (tokenBucket s).
Proof.
  destruct (Z.lt_ge_cases (TokenBucket.bucketSize (tokenBucket s)) count) as [H|H].
  - rewrite (accept_oversized _ _ _ H). cbn. auto.
  - rewrite (accept_sized _ _ _ H). cbn zeta.
    set (wc := if _ >=? _ then _ else _).
    assert (tokenBucket (fst wc) = tokenBucket s) as Hb.
    { subst wc. destruct (_ >=? _); reflexivity. }
    destruct (count >? _); cbn; [rewrite Hb; auto|].
    pose proof (bucket_accept_frame count (now_drip clk) (tokenBucket (fst wc)))
      as F.
    cbn zeta in F. rewrite Hb in F.
    destruct (fst (TokenBucket.accept _ _ _)); cbn; rewrite Hb; exact F.
Qed.

End Calls.

Lemma sample_is_new : RateLimiter.new 2 (Ms 1000) true 0 0 = Ok sample.
Proof. reflexivity. Qed.

Section Claims.
Import RateLimiter Trace.

(** C5. A request for more than the bucket's [bucketSize] is refused, and
    apart from the incoming-request counter nothing is assigned: the bucket
    (its content included) is the very same record, and [tokensThisInterval]
    and the three public stat fields keep their values. *)
Theorem accept_oversized_rejected (count : Z) (clk : Clock) (s : t) :
  TokenBucket.bucketSize (tokenBucket s) < count ->
  let o := accept count clk s in
  ret o = false
  /\ tokenBucket (after o) = tokenBucket s
  /\ tokensThisInterval (after o) = tokensThisInterval s
  /\ accepted (after o) = accepted s
  /\ incoming (after o) = incoming s
  /\ averageTime (after o) = averageTime s
  /\ incomingThisInterval (after o) = incomingThisInterval s + 1.
Proof.
  intros H o. subst o. rewrite (accept_oversized _ _ _ H). cbn.
  repeat split; reflexivity.
Qed.

Lemma accept_oversized_rejected_witness :
  TokenBucket.bucketSize (tokenBucket sample) < 3
  /\ ret (accept 3 (instant 10) sample) = false
  /\ tokenBucket (after (accept 3 (instant 10) sample)) = tokenBucket sample.
Proof.
  assert (TokenBucket.bucketSize (tokenBucket sample) < 3) as H
    by (vm_compute; reflexivity).
  split; [exact H|].
  destruct (accept_oversized_rejected 3 (instant 10) sample H) as [R [B _]].
  split; [exact R | exact B].
Defined.

(** C10. When the window has expired and the request is above
    [bucketSize], [accept] returns before the rollover: the window start,
    the window counters other than the incoming counter, and the stored
    snapshot are as before, the observer is not called, and the incoming
    counter has grown by one. *)
Theorem accept_oversized_skips_rollover (count : Z) (clk : Clock) (s : t) :
  TokenBucket.interval (tokenBucket s) <= now_accept clk - curIntervalStart s ->
  TokenBucket.bucketSize (tokenBucket s) < count ->
  let o := accept count clk s in
  ret o = false
  /\ fired o = []
  /\ curIntervalStart (after o) = curIntervalStart s
  /\ tokensThisInterval (after o) = tokensThisInterval s
  /\ timeSum (after o) = timeSum s
  /\ (accepted (after o), incoming (after o), averageTime (after o))
     = (accepted s, incoming s, averageTime s)
  /\ after o = set_incomingThisInterval (incomingThisInterval s + 1) s.
Proof.
  intros _ H o. subst o. rewrite (accept_oversized _ _ _ H). cbn.
  repeat split; reflexivity.
Qed.

Lemma accept_oversized_skips_rollover_witness :
  TokenBucket.interval (tokenBucket sample)
    <= now_accept (instant 5000) - curIntervalStart sample
  /\ TokenBucket.bucketSize (tokenBucket sample) < 3
  /\ fired (accept 3 (instant 5000) sample) = []
  /\ curIntervalStart (after (accept 3 (instant 5000) sample)) = 0.
Proof.
  assert (TokenBucket.interval (tokenBucket sample)
            <= now_accept (instant 5000) - curIntervalStart sample) as H1
    by (vm_compute; discriminate).
  assert (TokenBucket.bucketSize (tokenBucket sample) < 3) as H2
    by (vm_compute; reflexivity).
  split; [exact H1|]. split; [exact H2|].
  destruct (accept_oversized_skips_rollover 3 (instant 5000) sample H1 H2)
    as [_ [F [C _]]].
  split; [exact F | exact C].
Defined.

(** C6. [getStat] answers with zeros (and the current limit) once the
    window has run out, and with the stored snapshot fields otherwise; in
    both cases the limiter it leaves is the limiter it was given. *)
Theorem getStat_expired_or_stored (now : Z) (s : t) :
  (TokenBucket.interval (tokenBucket s) <= now - curIntervalStart s ->
   getStat now s
   = Stat.mk 0 0 0 (TokenBucket.tokensPerInterval (tokenBucket s)))
  /\ (now - curIntervalStart s < TokenBucket.interval (tokenBucket s) ->
      getStat now s
      = Stat.mk (accepted s) (incoming s) (averageTime s)
          (TokenBucket.tokensPerInterval (tokenBucket s)))
  /\ step (GetStat now) s = s.
Proof.
  unfold getStat. repeat split; try intros H; tests; reflexivity.
Qed.

(** [setLimit] writes the two limit fields of the bucket and nothing else. *)
Lemma setLimit_state (v : Z) (s : t) :
  setLimit v s
  = mk (TokenBucket.mk v v (TokenBucket.interval (tokenBucket s))
          (TokenBucket.content (tokenBucket s))
          (TokenBucket.lastDrip (tokenBucket s)))
       (curIntervalStart s) (tokensThisInterval s) (incomingThisInterval s)
       (incoming s) (accepted s) (averageTime s) (statCallback s) (timeSum s).
Proof. reflexivity. Qed.

Lemma getStat_expired_or_stored_witness :
  TokenBucket.interval (tokenBucket sample) <= 1000 - curIntervalStart sample
  /\ getStat 1000 sample = Stat.mk 0 0 0 2
  /\ 999 - curIntervalStart sample < TokenBucket.interval (tokenBucket sample)
  /\ getStat 999 (set_accepted 1 sample) = Stat.mk 1 0 0 2.
Proof.
  assert (TokenBucket.interval (tokenBucket sample)
            <= 1000 - curIntervalStart sample) as H1
    by (vm_compute; discriminate).
  assert (999 - curIntervalStart (set_accepted 1 sample)
            < TokenBucket.interval (tokenBucket (set_accepted 1 sample))) as H2
    by (vm_compute; reflexivity).
  destruct (getStat_expired_or_stored 1000 sample) as [Z0 _].
  destruct (getStat_expired_or_stored 999 (set_accepted 1 sample)) as [_ [St _]].
  split; [exact H1|]. split; [exact (Z0 H1)|]. split; [exact H2|]. exact (St H2).
Defined.

(** *** How one [accept] moves the window start and the window counter *)

Lemma accept_curIntervalStart (count : Z) (clk : Clock) (s : t) :
  curIntervalStart (after (accept count clk s))
  = if rolls count clk s then now_accept clk else curIntervalStart s.
Proof.
  unfold accept, rolls, rollover. cbn.
  destruct (count >? TokenBucket.bucketSize (tokenBucket s)); cbn; [reflexivity|].
  destruct (now_accept clk - curIntervalStart s >=? _); cbn;
    destruct (count >? _); cbn; try reflexivity;
    destruct (TokenBucket.accept _ _ _) as [[|] b]; reflexivity.
Qed.

Lemma accept_tokensThisInterval (count : Z) (clk : Clock) (s : t) :
  tokensThisInterval (after (accept count clk s))
  = (if rolls count clk s then 0 else tokensThisInterval s)
    + (if ret (accept count clk s) then count else 0).
Proof.
  unfold accept, rolls, rollover. cbn.
  destruct (count >? TokenBucket.bucketSize (tokenBucket s)); cbn; [lia|].
  destruct (now_accept clk - curIntervalStart s >=? _); cbn;
    destruct (count >? _); cbn; try lia;
    destruct (TokenBucket.accept _ _ _) as [[|] b]; cbn; lia.
Qed.

(** An accepted request fits in what the window had left. *)
Lemma accept_within_cap (count : Z) (clk : Clock) (s : t) :
  ret (accept count clk s) = true ->
  (if rolls count clk s then 0 else tokensThisInterval s) + count
  <= TokenBucket.tokensPerInterval (tokenBucket s).
Proof.
  unfold accept, rolls, rollover. cbn.
  destruct (count >? TokenBucket.bucketSize (tokenBucket s)); cbn;
    [discriminate|].
  destruct (now_accept clk - curIntervalStart s >=? _); cbn;
    rewrite Z.gtb_ltb; split_test; cbn; intros; try discriminate; lia.
Qed.

(** C1, as the code has it on the claim's own scenario.  The limiter built
    at time 0 with limit 2 and interval 1000 accepts one token at time 0, a
    latency sample of 30 is added, and the next call comes at time 5000, five
    intervals later.  The rollover of that call stores the counts of the last
    active window (accepted 1, incoming 2 with the call itself, average 30)
    and hands them to the observer; it does not store zeros. *)
Theorem idle_rollover_reports_last_window :
  let s1 := run [Accept 1 (instant 0); AddTime 30] sample in
  let o := accept 1 (instant 5000) s1 in
  2 * TokenBucket.interval (tokenBucket s1) < 5000 - curIntervalStart s1
  /\ accepted (after o) = 1
  /\ incoming (after o) = 2
  /\ averageTime (after o) = 30
  /\ fired o = [Stat.mk 1 2 30 2].
Proof. vm_compute. repeat split. Qed.

(** C4. An [accept] that passes the size test on an expired window, with a
    positive interval and a clock that stays inside the new window while the
    observer's argument is built: the public fields receive the counters of
    the window that ended ([incomingThisInterval] already counts this call),
    the average is the floor of [timeSum / tokensThisInterval] or 0 without
    accepted tokens, the window starts at the call's timestamp, the three
    counters are zero when the rollover is done (and [tokensThisInterval] is
    this call's count afterwards if it was accepted), and a registered
    observer is called once, with exactly that snapshot and the limit. *)
Theorem rollover_snapshots_window (count : Z) (clk : Clock) (s : t) :
  0 < TokenBucket.interval (tokenBucket s) ->
  count <= TokenBucket.bucketSize (tokenBucket s) ->
  TokenBucket.interval (tokenBucket s) <= now_accept clk - curIntervalStart s ->
  now_accept clk <= now_getStat clk
    < now_accept clk + TokenBucket.interval (tokenBucket s) ->
  let o := accept count clk s in
  let w := fst (rollover (now_accept clk) (now_getStat clk)
                  (set_incomingThisInterval (incomingThisInterval s + 1) s)) in
  let avg := if tokensThisInterval s =? 0 then 0
             else Qfloor (inject_Z (timeSum s)
                            / inject_Z (tokensThisInterval s))%Q in
  accepted (after o) = tokensThisInterval s
  /\ incoming (after o) = incomingThisInterval s + 1
  /\ averageTime (after o) = avg
  /\ curIntervalStart (after o) = now_accept clk
  /\ (tokensThisInterval w = 0 /\ incomingThisInterval w = 0 /\ timeSum w = 0)
  /\ tokensThisInterval (after o) = (if ret o then count else 0)
  /\ incomingThisInterval (after o) = 0
  /\ timeSum (after o) = 0
  /\ fired o
     = if statCallback s
       then [Stat.mk (tokensThisInterval s) (incomingThisInterval s + 1) avg
               (TokenBucket.tokensPerInterval (tokenBucket s))]
       else [].
Proof.
  intros Hint Hsize Hexp Hclk o w avg.
  assert (w = mk (tokenBucket s) (now_accept clk) 0 0 (incomingThisInterval s + 1)
                 (tokensThisInterval s) avg (statCallback s) 0) as Hw.
  { subst w. rewrite rollover_state by exact Hint. reflexivity. }
  assert (o = if count >? TokenBucket.tokensPerInterval (tokenBucket w)
                            - tokensThisInterval w
              then Outcome false
                     (snd (rollover (now_accept clk) (now_getStat clk)
                             (set_incomingThisInterval
                                (incomingThisInterval s + 1) s))) w
              else
                let rb := TokenBucket.accept count (now_drip clk) (tokenBucket w) in
                Outcome (fst rb)
                  (snd (rollover (now_accept clk) (now_getStat clk)
                          (set_incomingThisInterval
                             (incomingThisInterval s + 1) s)))
                  (if fst rb
                   then set_tokensThisInterval (tokensThisInterval w + count)
                          (set_tokenBucket (snd rb) w)
                   else set_tokenBucket (snd rb) w)) as Ho.
  { subst o w. rewrite (accept_sized _ _ _ Hsize). cbn zeta.
    replace (now_accept clk - curIntervalStart s
               >=? TokenBucket.interval (tokenBucket s)) with true
      by (symmetry; rewrite Z.geb_leb; apply Z.leb_le; exact Hexp).
    reflexivity. }
  assert (fired o
          = if statCallback s
            then [Stat.mk (tokensThisInterval s) (incomingThisInterval s + 1) avg
                    (TokenBucket.tokensPerInterval (tokenBucket s))]
            else []) as Hf.
  { rewrite Ho.
    assert (snd (rollover (now_accept clk) (now_getStat clk)
                   (set_incomingThisInterval (incomingThisInterval s + 1) s))
            = if statCallback s
              then [Stat.mk (tokensThisInterval s) (incomingThisInterval s + 1)
                      avg (TokenBucket.tokensPerInterval (tokenBucket s))]
              else []) as Hs.
    { rewrite rollover_fired. fold w. rewrite Hw. cbn.
      destruct (statCallback s); [|reflexivity].
      unfold getStat. cbn. tests. reflexivity. }
    destruct (count >? _); cbn; exact Hs. }
  rewrite Hf. rewrite Ho, Hw. cbn.
  destruct (count >? _); cbn.
  - repeat split; reflexivity.
  - destruct (fst (TokenBucket.accept _ _ _)); cbn; repeat split; reflexivity.
Qed.

Lemma rollover_snapshots_window_witness :
  let s1 := run [Accept 1 (instant 0); AddTime 30] sample in
  0 < TokenBucket.interval (tokenBucket s1)
  /\ 1 <= TokenBucket.bucketSize (tokenBucket s1)
  /\ TokenBucket.interval (tokenBucket s1)
       <= now_accept (instant 1200) - curIntervalStart s1
  /\ accepted (after (accept 1 (instant 1200) s1)) = tokensThisInterval s1
  /\ incoming (after (accept 1 (instant 1200) s1)) = incomingThisInterval s1 + 1.
Proof.
  set (s1 := run [Accept 1 (instant 0); AddTime 30] sample).
  assert (0 < TokenBucket.interval (tokenBucket s1)) as H1
    by (vm_compute; reflexivity).
  assert (1 <= TokenBucket.bucketSize (tokenBucket s1)) as H2
    by (vm_compute; discriminate).
  assert (TokenBucket.interval (tokenBucket s1)
            <= now_accept (instant 1200) - curIntervalStart s1) as H3
    by (vm_compute; discriminate).
  assert (now_accept (instant 1200) <= now_getStat (instant 1200)
            < now_accept (instant 1200) + TokenBucket.interval (tokenBucket s1))
    as H4 by (vm_compute; split; [discriminate | reflexivity]).
  destruct (rollover_snapshots_window 1 (instant 1200) s1 H1 H2 H3 H4)
    as [A [I _]].
  split; [exact H1|]. split; [exact H2|]. split; [exact H3|].
  split; [exact A | exact I].
Defined.

(** ** Call sequences *)

Lemma step_capped (c : call) (s : t) :
  capped s -> admissible [c] s -> capped (step c s).
Proof.
  unfold capped. intros [Hpos Hcap] [Hc _].
  destruct c as [count clk | time | now | v]; cbn [step].
  - destruct (accept_bucket_frame count clk s) as [_ [Hrate _]].
    cbn zeta in Hrate. rewrite Hrate, accept_tokensThisInterval.
    split; [exact Hpos|].
    destruct (ret (accept count clk s)) eqn:R.
    + apply accept_within_cap. exact R.
    + destruct (rolls count clk s); lia.
  - cbn. auto.
  - auto.
  - cbn. exact Hc.
Qed.

Lemma run_capped (cs : list call) :
  forall s, capped s -> admissible cs s -> capped (run cs s).
Proof.
  induction cs as [|c cs IH]; intros s Hs Hadm; cbn [run]; [exact Hs|].
  destruct Hadm as [Hc Hrest].
  apply IH; [|exact Hrest].
  apply step_capped; [exact Hs|]. split; [exact Hc | exact I].
Qed.

Lemma admissible_firstn (n : nat) :
  forall cs s, admissible cs s -> admissible (firstn n cs) s.
Proof.
  induction n as [|n IH]; intros cs s H; [exact I|].
  destruct cs as [|c cs]; [exact I|].
  destruct H as [Hc Hrest]. cbn [firstn admissible].
  split; [exact Hc | apply IH; exact Hrest].
Qed.

Lemma currentWindow_no_rollover (es : list event) :
  existsb ev_rolled es = false -> currentWindow es = es.
Proof.
  destruct es as [|e es]; [reflexivity|]. cbn.
  intros H. apply orb_false_elim in H. destruct H as [_ H].
  rewrite H. reflexivity.
Qed.

(** [tokensThisInterval] is the sum of the counts granted since the window
    was opened, on top of what it held if no call opened a new one. *)
Lemma run_tokensThisInterval (cs : list call) :
  forall s,
    tokensThisInterval (run cs s)
    = (if existsb ev_rolled (events cs s) then 0 else tokensThisInterval s)
      + acceptedSum (currentWindow (events cs s)).
Proof.
  induction cs as [|c cs IH]; intros s; cbn [run events].
  - cbn. lia.
  - rewrite IH.
    destruct c as [count clk | time | now | v];
      try (cbn [step]; reflexivity).
    cbn [existsb currentWindow ev_rolled].
    destruct (existsb ev_rolled (events cs (step (Accept count clk) s))) eqn:E.
    + rewrite orb_true_r. reflexivity.
    + rewrite orb_false_r.
      rewrite (currentWindow_no_rollover _ E).
      cbn [step acceptedSum ev_ret ev_count].
      rewrite accept_tokensThisInterval. lia.
Qed.

Lemma quiet_admissible (cs : list call) :
  existsb isSetLimit cs = false -> forall s, admissible cs s.
Proof.
  induction cs as [|c cs IH]; intros H s; [exact I|].
  cbn in H. apply orb_false_elim in H. destruct H as [Hc Hrest].
  split; [destruct c; try exact I; discriminate Hc | apply IH; exact Hrest].
Qed.

(** Without [setLimit] the rate and the capacity of the bucket stay put. *)
Lemma quiet_limit (cs : list call) :
  existsb isSetLimit cs = false ->
  forall s,
    TokenBucket.tokensPerInterval (tokenBucket (run cs s))
    = TokenBucket.tokensPerInterval (tokenBucket s)
    /\ TokenBucket.bucketSize (tokenBucket (run cs s))
       = TokenBucket.bucketSize (tokenBucket s).
Proof.
  induction cs as [|c cs IH]; intros H s; [split; reflexivity|].
  cbn in H. apply orb_false_elim in H. destruct H as [Hc Hrest].
  cbn [run]. destruct (IH Hrest (step c s)) as [R B]. rewrite R, B.
  destruct c as [count clk | time | now | v]; cbn [step];
    try (split; reflexivity); [|discriminate Hc].
  destruct (accept_bucket_frame count clk s) as [Hb [Hr _]].
  split; [exact Hr | exact Hb].
Qed.

(** Along a chronological call sequence the window start never moves back,
    and it never lies after the last clock reading. *)
Lemma run_curIntervalStart (cs : list call) :
  forall t0 s,
    curIntervalStart s <= t0 -> chronological t0 cs ->
    curIntervalStart s <= curIntervalStart (run cs s).
Proof.
  induction cs as [|c cs IH]; intros t0 s Hs Hcs; cbn [run]; [lia|].
  destruct c as [count clk | time | now | v]; cbn [chronological step] in *.
  - destruct Hcs as [Hnow Hrest].
    assert (curIntervalStart s <= curIntervalStart (after (accept count clk s))
            <= now_accept clk) as [H1 H2].
    { rewrite accept_curIntervalStart. destruct (rolls count clk s); lia. }
    etransitivity; [exact H1|]. apply (IH (now_accept clk)); assumption.
  - exact (IH t0 (addTime time s) Hs Hcs).
  - destruct Hcs as [Hnow Hrest]. apply (IH now); [lia | exact Hrest].
  - exact (IH t0 (setLimit v s) Hs Hcs).
Qed.

(** C9. For every call made at or after the time the current window was
    opened: [curIntervalStart] does not decrease; it keeps its value unless
    the call is an [accept] that finds at least one interval elapsed, and then
    it becomes that call's timestamp ([getStat], [addTime] and [setLimit]
    never assign it); and an [accept] that passes the size test on an expired
    window does move it to its timestamp. *)
Theorem curIntervalStart_moves_forward_lazily (c : call) (s : t) (t0 : Z) :
  curIntervalStart s <= t0 ->
  chronological t0 [c] ->
  let s' := step c s in
  curIntervalStart s <= curIntervalStart s'
  /\ (curIntervalStart s' = curIntervalStart s
      \/ exists count clk,
           c = Accept count clk
           /\ TokenBucket.interval (tokenBucket s)
                <= now_accept clk - curIntervalStart s
           /\ curIntervalStart s' = now_accept clk)
  /\ (forall count clk,
        c = Accept count clk ->
        count <= TokenBucket.bucketSize (tokenBucket s) ->
        TokenBucket.interval (tokenBucket s)
          <= now_accept clk - curIntervalStart s ->
        curIntervalStart s' = now_accept clk).
Proof.
  intros Hs Hc s'. subst s'.
  destruct c as [count clk | time | now | v]; cbn [step chronological] in *.
  - destruct Hc as [Hnow _]. rewrite accept_curIntervalStart.
    unfold rolls. flip_tests.
    destruct (Z.ltb_spec (TokenBucket.bucketSize (tokenBucket s)) count);
      destruct (Z.leb_spec (TokenBucket.interval (tokenBucket s))
                  (now_accept clk - curIntervalStart s)); cbn [negb andb].
    + split; [lia|]. split; [left; reflexivity|].
      intros count' clk' E. injection E as <- <-. lia.
    + split; [lia|]. split; [left; reflexivity|].
      intros count' clk' E. injection E as <- <-. lia.
    + split; [lia|]. split.
      * right. exists count, clk. auto.
      * intros count' clk' E. injection E as <- <-. reflexivity.
    + split; [lia|]. split; [left; reflexivity|].
      intros count' clk' E. injection E as <- <-. lia.
  - cbn. split; [lia|]. split; [left; reflexivity | discriminate].
  - split; [lia|]. split; [left; reflexivity | discriminate].
  - cbn. split; [lia|]. split; [left; reflexivity | discriminate].
Qed.

Lemma curIntervalStart_moves_forward_lazily_witness :
  curIntervalStart sample <= 0
  /\ chronological 0 [Accept 1 (instant 1200)]
  /\ curIntervalStart sample
     <= curIntervalStart (step (Accept 1 (instant 1200)) sample).
Proof.
  assert (curIntervalStart sample <= 0) as H1 by (vm_compute; discriminate).
  assert (chronological 0 [Accept 1 (instant 1200)]) as H2
    by (split; [vm_compute; discriminate | exact I]).
  destruct (curIntervalStart_moves_forward_lazily
              (Accept 1 (instant 1200)) sample 0 H1 H2) as [M _].
  split; [exact H1|]. split; [exact H2 | exact M].
Defined.

(** C2, the claim as stated, refuted: on the sample limiter, two tokens are
    granted at time 0 and [setLimit 1] follows in the same window; the window
    counter, which is the sum of the granted counts, is then 2 against a cap
    of 1. *)
Lemma setLimit_below_granted_breaks_cap :
  let cs := [Accept 2 (instant 0); SetLimit 1] in
  let s := run cs sample in
  acceptedSum (currentWindow (events cs sample)) = 2
  /\ tokensThisInterval s = 2
  /\ TokenBucket.tokensPerInterval (tokenBucket s) = 1
  /\ ~ tokensThisInterval s <= TokenBucket.tokensPerInterval (tokenBucket s).
Proof.
  vm_compute. repeat split. intros H. apply H. reflexivity.
Qed.

(** C2, amended.  On a limiter built with a non-negative limit, and along a
    call sequence in which each [setLimit v] has [v >= 0] and [v] at least the
    tokens already granted in the open window: at every observation point
    (after any number [n] of the calls) [tokensThisInterval] is the sum of the
    counts of the calls that returned true in the open window, and it is at
    most the current [tokensPerInterval]. *)
Theorem window_cap_invariant
    (limit : Z) (i : Interval) (cb : bool) (now_bucket now : Z)
    (s0 : t) (cs : list call) (n : nat) :
  new limit i cb now_bucket now = Ok s0 ->
  0 <= limit ->
  admissible cs s0 ->
  let s := run (firstn n cs) s0 in
  tokensThisInterval s = acceptedSum (currentWindow (events (firstn n cs) s0))
  /\ acceptedSum (currentWindow (events (firstn n cs) s0))
     <= TokenBucket.tokensPerInterval (tokenBucket s).
Proof.
  intros Hnew Hlimit Hadm s.
  assert (tokensThisInterval s0 = 0
          /\ TokenBucket.tokensPerInterval (tokenBucket s0) = limit) as [H0 Hr].
  { unfold new, TokenBucket.new in Hnew.
    destruct (TokenBucket.resolve i); [|discriminate Hnew].
    injection Hnew as <-. split; reflexivity. }
  assert (tokensThisInterval s
          = acceptedSum (currentWindow (events (firstn n cs) s0))) as Hsum.
  { subst s. rewrite run_tokensThisInterval, H0.
    destruct (existsb _ _); reflexivity. }
  split; [exact Hsum|]. rewrite <- Hsum.
  apply (run_capped (firstn n cs) s0).
  - unfold capped. rewrite H0, Hr. lia.
  - apply admissible_firstn. exact Hadm.
Qed.

Lemma window_cap_invariant_witness :
  new 2 (Ms 1000) true 0 0 = Ok sample
  /\ 0 <= 2
  /\ admissible [Accept 1 (instant 0); SetLimit 5; Accept 3 (instant 900)] sample
  /\ tokensThisInterval
       (run (firstn 3 [Accept 1 (instant 0); SetLimit 5; Accept 3 (instant 900)])
          sample)
     = acceptedSum
         (currentWindow
            (events
               (firstn 3 [Accept 1 (instant 0); SetLimit 5; Accept 3 (instant 900)])
               sample)).
Proof.
  assert (0 <= 2) as H2 by discriminate.
  assert (admissible [Accept 1 (instant 0); SetLimit 5; Accept 3 (instant 900)]
            sample) as H3.
  { cbn. repeat split; discriminate. }
  destruct (window_cap_invariant 2 (Ms 1000) true 0 0 sample
              [Accept 1 (instant 0); SetLimit 5; Accept 3 (instant 900)] 3%nat
              eq_refl H2 H3) as [S _].
  split; [reflexivity|]. split; [exact H2|]. split; [exact H3 | exact S].
Defined.

(** C8. [setLimit v] makes both the per-window cap and the bucket capacity
    [v] and leaves every other field as it was: the bucket's content, interval
    and last drip, the window start, the window counters, the stored snapshot
    and the observer.  On a limiter built with limit 2, after any calls
    without [setLimit], then [setLimit 5], then any calls without [setLimit],
    the cap in force is 5: the limit and capacity read 5, the window counter
    is at most 5, and a request that would take the window above 5 is refused.
    The cap is not 2 any more: on the sample limiter two tokens and then three
    more are granted in one window, and only the next one is refused. *)
Theorem setLimit_frame_and_new_cap :
  (forall (v : Z) (s : t),
      setLimit v s
      = mk (TokenBucket.mk v v (TokenBucket.interval (tokenBucket s))
              (TokenBucket.content (tokenBucket s))
              (TokenBucket.lastDrip (tokenBucket s)))
           (curIntervalStart s) (tokensThisInterval s) (incomingThisInterval s)
           (incoming s) (accepted s) (averageTime s) (statCallback s)
           (timeSum s))
  /\ (forall (i : Interval) (cb : bool) (now_bucket now : Z) (s0 : t)
             (cs1 cs2 : list call),
         new 2 i cb now_bucket now = Ok s0 ->
         existsb isSetLimit cs1 = false ->
         existsb isSetLimit cs2 = false ->
         let s := run cs2 (setLimit 5 (run cs1 s0)) in
         TokenBucket.tokensPerInterval (tokenBucket s) = 5
         /\ TokenBucket.bucketSize (tokenBucket s) = 5
         /\ tokensThisInterval s <= 5
         /\ (forall (count : Z) (clk : Clock),
                5 < (if rolls count clk s then 0 else tokensThisInterval s) + count ->
                ret (accept count clk s) = false))
  /\ (let s := run [SetLimit 5; Accept 2 (instant 0); Accept 3 (instant 600)]
                 sample in
      tokensThisInterval s = 5 /\ ret (accept 1 (instant 600) s) = false).
Proof.
  split; [intros v s; apply setLimit_state|].
  split; [|vm_compute; split; reflexivity].
  intros i cb now_bucket now s0 cs1 cs2 Hnew Hq1 Hq2 s.
  assert (capped s0 /\ TokenBucket.tokensPerInterval (tokenBucket s0) = 2)
    as [Hc0 Hr0].
  { unfold new, TokenBucket.new in Hnew.
    destruct (TokenBucket.resolve i); [|discriminate Hnew].
    injection Hnew as <-. unfold capped. cbn. lia. }
  pose proof (run_capped cs1 s0 Hc0 (quiet_admissible cs1 Hq1 s0)) as [_ Hc1].
  destruct (quiet_limit cs1 Hq1 s0) as [Hr1 _]. rewrite Hr1, Hr0 in Hc1.
  assert (capped (setLimit 5 (run cs1 s0))) as Hc.
  { unfold capped. cbn. lia. }
  pose proof (run_capped cs2 _ Hc (quiet_admissible cs2 Hq2 _)) as [_ Hc2].
  destruct (quiet_limit cs2 Hq2 (setLimit 5 (run cs1 s0))) as [Hr2 Hb2].
  cbn in Hr2, Hb2. fold s in Hc2, Hr2, Hb2.
  split; [exact Hr2|]. split; [exact Hb2|]. split; [lia|].
  intros count clk Hover.
  destruct (ret (accept count clk s)) eqn:R; [|reflexivity].
  pose proof (accept_within_cap count clk s R) as Hin. lia.
Qed.

Lemma setLimit_frame_and_new_cap_witness :
  new 2 (Ms 1000) true 0 0 = Ok sample
  /\ existsb isSetLimit [Accept 1 (instant 0)] = false
  /\ existsb isSetLimit [Accept 4 (instant 900); AddTime 7] = false
  /\ tokensThisInterval
       (run [Accept 4 (instant 900); AddTime 7]
          (setLimit 5 (run [Accept 1 (instant 0)] sample))) <= 5.
Proof.
  destruct setLimit_frame_and_new_cap as [_ [Cap _]].
  destruct (Cap (Ms 1000) true 0 0 sample [Accept 1 (instant 0)]
              [Accept 4 (instant 900); AddTime 7] eq_refl eq_refl eq_refl)
    as [_ [_ [Le _]]].
  split; [reflexivity|]. split; [reflexivity|]. split; [reflexivity | exact Le].
Defined.

(** ** The first calls on a new limiter *)

Lemma new_inWindow (limit : Z) (i : Interval) (cb : bool) (now_bucket now : Z)
    (s : t) :
  new limit i cb now_bucket now = Ok s ->
  inWindow limit (TokenBucket.interval (tokenBucket s)) now 0 s
  /\ TokenBucket.lastDrip (tokenBucket s) = now_bucket.
Proof.
  unfold new, TokenBucket.new. intros Hnew.
  destruct (TokenBucket.resolve i); [|discriminate Hnew].
  injection Hnew as <-. unfold inWindow. cbn.
  rewrite Z.sub_0_r. repeat split; try reflexivity. apply Qle_refl.
Qed.

(** A request for [c] of the tokens that the window still has is granted
    while the window lasts, and the limiter stays in the same window with
    [k + c] tokens granted. *)
Lemma accept_inWindow (n ivl t0 k c : Z) (clk : Clock) (s : t) :
  inWindow n ivl t0 k s ->
  0 < ivl -> 0 <= k -> 0 <= c -> k + c <= n ->
  now_accept clk - t0 < ivl ->
  TokenBucket.lastDrip (tokenBucket s) <= now_drip clk ->
  ret (accept c clk s) = true
  /\ inWindow n ivl t0 (k + c) (after (accept c clk s))
  /\ TokenBucket.lastDrip (tokenBucket (after (accept c clk s))) = now_drip clk.
Proof.
  intros (Hb & Hr & Hi & Hs & Hk & Hq) Hivl Hk0 Hc0 Hkc Hwin Hdrip.
  assert (c <= TokenBucket.bucketSize (tokenBucket s)) as Hsize by lia.
  pose proof (dripAmount_nonneg (now_drip clk) (tokenBucket s)) as Hd.
  specialize (Hd Hdrip). rewrite Hi, Hr in Hd.
  specialize (Hd Hivl ltac:(lia)).
  assert (inject_Z (n - k) <= TokenBucket.content (tokenBucket s)
                               + TokenBucket.dripAmount (now_drip clk) (tokenBucket s))%Q
    as Hfill.
  { rewrite <- (Qplus_0_r (inject_Z (n - k))).
    apply Qplus_le_compat; assumption. }
  assert (fst (TokenBucket.accept c (now_drip clk) (tokenBucket s)) = true) as Hacc.
  { apply bucket_accept_true; [exact Hsize|].
    apply Qle_trans with (inject_Z (n - k)); [|exact Hfill].
    rewrite <- Zle_Qle. lia. }
  destruct (bucket_accept_content c (now_drip clk) (tokenBucket s) Hacc)
    as [Hcontent Hlast].
  destruct (bucket_accept_frame c (now_drip clk) (tokenBucket s))
    as (Fb & Fr & Fi).
  cbn zeta in Fb, Fr, Fi.
  rewrite (accept_sized _ _ _ Hsize). cbn zeta.
  replace (now_accept clk - curIntervalStart s
             >=? TokenBucket.interval (tokenBucket s)) with false
    by (symmetry; rewrite Z.geb_leb; apply Z.leb_gt; lia).
  cbn [fst snd set_incomingThisInterval tokenBucket tokensThisInterval].
  replace (c >? TokenBucket.tokensPerInterval (tokenBucket s)
                  - tokensThisInterval s) with false
    by (symmetry; rewrite Z.gtb_ltb; apply Z.ltb_ge; lia).
  rewrite Hacc. cbn.
  split; [reflexivity|]. split; [|exact Hlast].
  unfold inWindow. cbn.
  rewrite Fb, Fr, Fi, Hcontent, Hb.
  repeat split; try assumption; try lia.
  assert (inject_Z (n - k) <= Qmin (inject_Z n)
            (TokenBucket.content (tokenBucket s)
             + TokenBucket.dripAmount (now_drip clk) (tokenBucket s)))%Q as Hmin.
  { apply Q.min_glb; [|exact Hfill]. rewrite <- Zle_Qle. lia. }
  apply Qle_trans with (inject_Z (n - k) - inject_Z c)%Q.
  - unfold Qminus. rewrite <- inject_Z_opp, <- inject_Z_plus.
    rewrite <- Zle_Qle. lia.
  - unfold Qminus. apply Qplus_le_compat; [exact Hmin | apply Qle_refl].
Qed.

(** Once the window's tokens are all granted, a positive request is refused
    for as long as the window lasts. *)
Lemma accept_window_exhausted (n ivl t0 c : Z) (clk : Clock) (s : t) :
  inWindow n ivl t0 n s ->
  0 < c -> now_accept clk - t0 < ivl ->
  ret (accept c clk s) = false.
Proof.
  intros (Hb & Hr & Hi & Hs & Hk & _) Hc Hwin.
  destruct (ret (accept c clk s)) eqn:R; [|reflexivity].
  pose proof (accept_within_cap c clk s R) as Hin.
  unfold rolls in Hin.
  replace (now_accept clk - curIntervalStart s
             >=? TokenBucket.interval (tokenBucket s)) with false in Hin
    by (symmetry; rewrite Z.geb_leb; apply Z.leb_gt; lia).
  rewrite andb_false_r in Hin. lia.
Qed.

(** C3. Scenario B: on a limiter built with limit 2 and interval 1000 ms,
    three [accept(1)] calls made one after the other within the 100 ms that
    follow the construction return true, true and false. *)
Theorem three_requests_in_one_window
    (cb : bool) (now_bucket now : Z) (s : t) (c1 c2 c3 : Clock) :
  new 2 (Ms 1000) cb now_bucket now = Ok s ->
  now_bucket <= now ->
  ticksWithin now (now + 100) c1 ->
  ticksWithin (now_drip c1) (now + 100) c2 ->
  ticksWithin (now_drip c2) (now + 100) c3 ->
  let o1 := accept 1 c1 s in
  let o2 := accept 1 c2 (after o1) in
  let o3 := accept 1 c3 (after o2) in
  ret o1 = true /\ ret o2 = true /\ ret o3 = false.
Proof.
  intros Hnew Hb (A1 & B1 & C1 & D1) (A2 & B2 & C2 & D2) (A3 & B3 & C3 & D3)
    o1 o2 o3.
  destruct (new_inWindow _ _ _ _ _ _ Hnew) as [W0 L0].
  assert (TokenBucket.interval (tokenBucket s) = 1000) as Hi.
  { unfold new, TokenBucket.new in Hnew. cbn in Hnew.
    injection Hnew as <-. reflexivity. }
  rewrite Hi in W0.
  destruct (accept_inWindow 2 1000 now 0 1 c1 s W0) as (R1 & W1 & L1);
    try lia.
  fold o1 in R1, W1, L1.
  destruct (accept_inWindow 2 1000 now (0 + 1) 1 c2 (after o1) W1)
    as (R2 & W2 & L2); try lia.
  fold o2 in R2, W2, L2.
  split; [exact R1|]. split; [exact R2|].
  apply (accept_window_exhausted 2 1000 now 1 c3 (after o2) W2); lia.
Qed.

Lemma three_requests_in_one_window_witness :
  new 2 (Ms 1000) true 0 0 = Ok sample
  /\ ticksWithin 0 (0 + 100) (instant 10)
  /\ ticksWithin (now_drip (instant 10)) (0 + 100) (instant 50)
  /\ ticksWithin (now_drip (instant 50)) (0 + 100) (instant 90)
  /\ ret (accept 1 (instant 90)
            (after (accept 1 (instant 50)
                      (after (accept 1 (instant 10) sample))))) = false.
Proof.
  assert (ticksWithin 0 (0 + 100) (instant 10)) as H1
    by (repeat split; discriminate).
  assert (ticksWithin (now_drip (instant 10)) (0 + 100) (instant 50)) as H2
    by (repeat split; discriminate).
  assert (ticksWithin (now_drip (instant 50)) (0 + 100) (instant 90)) as H3
    by (repeat split; discriminate).
  assert (0 <= 0) as H0 by discriminate.
  destruct (three_requests_in_one_window true 0 0 sample
              (instant 10) (instant 50) (instant 90) eq_refl H0 H1 H2 H3)
    as [_ [_ R3]].
  split; [reflexivity|]. split; [exact H1|]. split; [exact H2|].
  split; [exact H3 | exact R3].
Defined.

(** C7. A limiter built with limit [limit] owns a bucket whose capacity and
    rate are [limit] and whose content is [limit] from the start; the window
    counters and the latency sum are zero, the stored snapshot is zero, and
    the window starts at the construction time.  With a positive interval, a
    first [accept limit] succeeds when it comes at the very clock reading of
    the bucket's construction, and, for a non-negative limit, at any later
    reading too. *)
Theorem new_limiter_starts_full
    (limit : Z) (i : Interval) (cb : bool) (now_bucket now : Z) (s : t)
    (clk : Clock) :
  new limit i cb now_bucket now = Ok s ->
  0 < TokenBucket.interval (tokenBucket s) ->
  now_drip clk = now_bucket \/ (now_bucket <= now_drip clk /\ 0 <= limit) ->
  TokenBucket.bucketSize (tokenBucket s) = limit
  /\ TokenBucket.tokensPerInterval (tokenBucket s) = limit
  /\ TokenBucket.content (tokenBucket s) = inject_Z limit
  /\ tokensThisInterval s = 0
  /\ incomingThisInterval s = 0
  /\ timeSum s = 0
  /\ (accepted s, incoming s, averageTime s) = (0, 0, 0)
  /\ curIntervalStart s = now
  /\ ret (accept limit clk s) = true.
Proof.
  intros Hnew Hivl Hclk.
  assert (s = mk (TokenBucket.mk limit limit (TokenBucket.interval (tokenBucket s))
                    (inject_Z limit) now_bucket)
                 now 0 0 0 0 0 cb 0) as Hs.
  { unfold new, TokenBucket.new in Hnew.
    destruct (TokenBucket.resolve i); [|discriminate Hnew].
    injection Hnew as <-. reflexivity. }
  set (ivl := TokenBucket.interval (tokenBucket s)) in *.
  rewrite Hs. cbn. repeat split.
  rewrite <- Hs.
  assert (limit <= TokenBucket.bucketSize (tokenBucket s)) as Hsize
    by (rewrite Hs; cbn; lia).
  rewrite (accept_sized _ _ _ Hsize). cbn zeta.
  set (wc := if _ >=? _ then _ else _).
  assert (tokenBucket (fst wc) = tokenBucket s
          /\ tokensThisInterval (fst wc) = 0) as [Hwb Hwk].
  { subst wc. destruct (_ >=? _); cbn; rewrite Hs; split; reflexivity. }
  rewrite Hwb, Hwk.
  replace (limit >? TokenBucket.tokensPerInterval (tokenBucket s) - 0)
    with false
    by (symmetry; rewrite Z.gtb_ltb; apply Z.ltb_ge; rewrite Hs; cbn; lia).
  cbn.
  apply bucket_accept_true; [exact Hsize|].
  assert (0 <= TokenBucket.dripAmount (now_drip clk) (tokenBucket s))%Q as Hd.
  { destruct Hclk as [Hsame | [Hlater Hlimit]].
    - assert (now_drip clk = TokenBucket.lastDrip (tokenBucket s)) as ->
        by (rewrite Hs; cbn; exact Hsame).
      rewrite dripAmount_same_instant. apply Qle_refl.
    - apply dripAmount_nonneg.
      + rewrite Hs. cbn. exact Hlater.
      + exact Hivl.
      + rewrite Hs. cbn. exact Hlimit. }
  assert (TokenBucket.content (tokenBucket s) = inject_Z limit) as ->
    by (rewrite Hs; reflexivity).
  rewrite <- (Qplus_0_r (inject_Z limit)) at 1.
  apply Qplus_le_compat; [apply Qle_refl | exact Hd].
Qed.

Lemma new_limiter_starts_full_witness :
  new 2 (Ms 1000) true 0 0 = Ok sample
  /\ 0 < TokenBucket.interval (tokenBucket sample)
  /\ (now_drip (instant 3) = 0 \/ (0 <= now_drip (instant 3) /\ 0 <= 2))
  /\ ret (accept 2 (instant 3) sample) = true.
Proof.
  assert (0 < TokenBucket.interval (tokenBucket sample)) as H1
    by (vm_compute; reflexivity).
  assert (now_drip (instant 3) = 0 \/ (0 <= now_drip (instant 3) /\ 0 <= 2))
    as H2 by (right; split; discriminate).
  destruct (new_limiter_starts_full 2 (Ms 1000) true 0 0 sample (instant 3)
              eq_refl H1 H2) as (_ & _ & _ & _ & _ & _ & _ & _ & R).
  split; [reflexivity|]. split; [exact H1|]. split; [exact H2 | exact R].
Defined.

End Claims.

(** ** The two revisions agree *)

Section Revisions.
Import LibRateLimiter.

(** [lib/rate-limiter.js] carries two more fields ([_tokensPerIntervalConfig],
    [_goingDown]); on the fields the revisions share, [accept], [getStat],
    [addTime] and the limit setter do the same thing, so every statement
    proved above for [RateLimiter] holds of [LibRateLimiter] through
    [forget]. *)
Lemma lib_new_forget (limit : Z) (i : Interval) (cb : bool) (now_bucket now : Z) :
  match LibRateLimiter.new limit i cb now_bucket now with
  | Ok s => RateLimiter.new limit i cb now_bucket now = Ok (forget s)
  | Throw e => RateLimiter.new limit i cb now_bucket now = Throw e
  end.
Proof.
  unfold LibRateLimiter.new, RateLimiter.new.
  destruct (TokenBucket.new limit limit i now_bucket); reflexivity.
Qed.

Lemma lib_getStat_forget (now : Z) (s : t) :
  getStat now s = RateLimiter.getStat now (forget s).
Proof. reflexivity. Qed.

Lemma lib_accept_forget (count : Z) (clk : Clock) (s : t) :
  RateLimiter.accept count clk (forget s)
  = RateLimiter.Outcome (ret (accept count clk s)) (fired (accept count clk s))
      (forget (after (accept count clk s))).
Proof.
  unfold accept, RateLimiter.accept, rollover, RateLimiter.rollover. cbn.
  destruct (count >? TokenBucket.bucketSize (tokenBucket s)); cbn; [reflexivity|].
  destruct (now_accept clk - curIntervalStart s >=? _); cbn;
    destruct (count >? _); cbn; try reflexivity;
    destruct (TokenBucket.accept _ _ _) as [[|] b]; reflexivity.
Qed.

Lemma lib_addTime_forget (time : Z) (s : t) :
  forget (addTime time s) = RateLimiter.addTime time (forget s).
Proof. reflexivity. Qed.

Lemma lib_setTokensPerInterval_forget (v : Z) (s : t) :
  forget (setTokensPerInterval v s) = RateLimiter.setLimit v (forget s).
Proof. reflexivity. Qed.

(** The operations that only [lib/rate-limiter.js] has touch the limit of the
    bucket and the two extra fields; the window and the snapshot are left
    alone. *)
Lemma lib_limit_operations_frame (count bound v : Z) (s : t) :
  let same (s' : t) :=
    curIntervalStart s' = curIntervalStart s
    /\ tokensThisInterval s' = tokensThisInterval s
    /\ incomingThisInterval s' = incomingThisInterval s
    /\ (accepted s', incoming s', averageTime s')
       = (accepted s, incoming s, averageTime s) in
  same (up count bound s) /\ same (down count bound s) /\ same (updateLimit v s).
Proof.
  cbn zeta. unfold up, down, updateLimit. cbn.
  repeat split; try reflexivity;
    try (destruct (_ <? bound); reflexivity);
    destruct (_ =? v); reflexivity.
Qed.

(** On [lib/rate-limiter.js] too, a call that comes five intervals after
    the last one stores and reports the counts of the last active window. *)
Lemma lib_stale_snapshot_after_idle :
  match new 2 (Ms 1000) true 0 0 with
  | Throw _ => False
  | Ok s0 =>
      let s1 := addTime 30 (after (accept 1 (instant 0) s0)) in
      let o := accept 1 (instant 5000) s1 in
      (accepted (after o), incoming (after o), averageTime (after o)) = (1, 2, 30)
      /\ fired o = [Stat.mk 1 2 30 2]
  end.
Proof. vm_compute. split; reflexivity. Qed.

End Revisions.

(** * Further properties of the limiter *)

Section Windows.
Import RateLimiter Trace History.

Lemma accept_incomingThisInterval (count : Z) (clk : Clock) (s : t) :
  incomingThisInterval (after (accept count clk s))
  = if rolls count clk s then 0 else incomingThisInterval s + 1.
Proof.
  unfold accept, rolls, rollover. cbn.
  destruct (count >? TokenBucket.bucketSize (tokenBucket s)); cbn; [reflexivity|].
  destruct (now_accept clk - curIntervalStart s >=? _); cbn;
    destruct (count >? _); cbn; try reflexivity;
    destruct (TokenBucket.accept _ _ _) as [[|] b]; reflexivity.
Qed.

Lemma accept_statCallback (count : Z) (clk : Clock) (s : t) :
  statCallback (after (accept count clk s)) = statCallback s.
Proof.
  unfold accept, rollover. cbn.
  destruct (count >? TokenBucket.bucketSize (tokenBucket s)); cbn; [reflexivity|].
  destruct (now_accept clk - curIntervalStart s >=? _); cbn;
    destruct (count >? _); cbn; try reflexivity;
    destruct (TokenBucket.accept _ _ _) as [[|] b]; reflexivity.
Qed.

Lemma step_statCallback (c : call) (s : t) :
  statCallback (step c s) = statCallback s.
Proof.
  destruct c; cbn [step]; try reflexivity. apply accept_statCallback.
Qed.

(** The observer is called by the rollover branch and by nothing else. *)
Lemma accept_fired_length (count : Z) (clk : Clock) (s : t) :
  List.length (fired (accept count clk s))
  = if rolls count clk s && statCallback s then 1%nat else 0%nat.
Proof.
  unfold accept, rolls, rollover. cbn.
  destruct (count >? TokenBucket.bucketSize (tokenBucket s)); cbn; [reflexivity|].
  destruct (now_accept clk - curIntervalStart s >=? _); cbn;
    destruct (statCallback s); cbn;
    destruct (count >? _); cbn; try reflexivity;
    destruct (TokenBucket.accept _ _ _) as [[|] b]; reflexivity.
Qed.

(** Outside the rollover branch the stored snapshot and the window start
    are not assigned. *)
Lemma accept_keeps_snapshot (count : Z) (clk : Clock) (s : t) :
  rolls count clk s = false ->
  accepted (after (accept count clk s)) = accepted s
  /\ incoming (after (accept count clk s)) = incoming s
  /\ averageTime (after (accept count clk s)) = averageTime s
  /\ curIntervalStart (after (accept count clk s)) = curIntervalStart s.
Proof.
  unfold accept, rolls, rollover. cbn.
  destruct (count >? TokenBucket.bucketSize (tokenBucket s)); cbn; [auto|].
  destruct (now_accept clk - curIntervalStart s >=? _); cbn; [discriminate|].
  intros _.
  destruct (count >? _); cbn; [auto|].
  destruct (TokenBucket.accept _ _ _) as [[|] b]; cbn; auto.
Qed.

(** A request that passes the size test, finds the window open and asks for
    more than the window has left: nothing but the incoming counter moves. *)
Lemma accept_over_cap (count : Z) (clk : Clock) (s : t) :
  count <= TokenBucket.bucketSize (tokenBucket s) ->
  now_accept clk - curIntervalStart s < TokenBucket.interval (tokenBucket s) ->
  TokenBucket.tokensPerInterval (tokenBucket s) - tokensThisInterval s < count ->
  accept count clk s
  = Outcome false [] (set_incomingThisInterval (incomingThisInterval s + 1) s).
Proof.
  intros Hsize Hopen Hover. rewrite (accept_sized _ _ _ Hsize). cbn zeta.
  replace (now_accept clk - curIntervalStart s
             >=? TokenBucket.interval (tokenBucket s)) with false
    by (symmetry; rewrite Z.geb_leb; apply Z.leb_gt; exact Hopen).
  cbn [fst snd set_incomingThisInterval tokenBucket tokensThisInterval].
  replace (count >? TokenBucket.tokensPerInterval (tokenBucket s)
                      - tokensThisInterval s) with true
    by (symmetry; rewrite Z.gtb_ltb; apply Z.ltb_lt; exact Hover).
  reflexivity.
Qed.

(** X1. Over any call sequence the observer is called exactly once for
    each [accept] that rolls the window over, and never otherwise; without a
    registered observer nothing is ever delivered. *)
Theorem observer_called_once_per_rollover (cs : list call) :
  forall s : t,
    List.length (notifications cs s)
    = if statCallback s
      then List.length (filter ev_rolled (events cs s))
      else 0%nat.
Proof.
  induction cs as [|c cs IH]; intros s; cbn [notifications events].
  - destruct (statCallback s); reflexivity.
  - destruct c as [count clk | time | now | v];
      try (rewrite IH, step_statCallback; reflexivity).
    rewrite length_app, IH, accept_fired_length, step_statCallback.
    cbn [filter ev_rolled].
    destruct (rolls count clk s); destruct (statCallback s); reflexivity.
Qed.

(** X2. Between rollovers the stored snapshot and the window start do not
    move: after any calls none of which rolled the window over, [accepted],
    [incoming], [averageTime] and [curIntervalStart] are what they were. *)
Theorem snapshot_kept_between_rollovers (cs : list call) :
  forall s : t,
    existsb ev_rolled (events cs s) = false ->
    accepted (run cs s) = accepted s
    /\ incoming (run cs s) = incoming s
    /\ averageTime (run cs s) = averageTime s
    /\ curIntervalStart (run cs s) = curIntervalStart s.
Proof.
  induction cs as [|c cs IH]; intros s H; cbn [run]; [auto|].
  destruct c as [count clk | time | now | v]; cbn [events] in H;
    try exact (IH _ H).
  cbn [existsb ev_rolled] in H. apply orb_false_elim in H.
  destruct H as [Hc Hrest].
  destruct (IH _ Hrest) as (A & I & V & C).
  destruct (accept_keeps_snapshot count clk s Hc) as (A' & I' & V' & C').
  cbn [step] in *. rewrite A, I, V, C. auto.
Qed.

Lemma snapshot_kept_between_rollovers_witness :
  existsb ev_rolled
    (events [Accept 1 (instant 10); AddTime 5; Accept 3 (instant 2000);
             SetLimit 7]
       (set_accepted 4 sample)) = false
  /\ accepted
       (run [Accept 1 (instant 10); AddTime 5; Accept 3 (instant 2000);
             SetLimit 7]
          (set_accepted 4 sample)) = 4.
Proof.
  split; [reflexivity|].
  destruct (snapshot_kept_between_rollovers
              [Accept 1 (instant 10); AddTime 5; Accept 3 (instant 2000);
               SetLimit 7]
              (set_accepted 4 sample) eq_refl) as [A _].
  exact A.
Defined.

(** X3. [incomingThisInterval] counts every [accept] call made since the
    last rollover, granted or not, but not the call that rolled the window
    over: that one is counted in the window it closed. *)
Theorem incoming_counts_calls_since_rollover (cs : list call) :
  forall s : t,
    incomingThisInterval (run cs s)
    = if existsb ev_rolled (events cs s)
      then Z.of_nat (List.length (currentWindow (events cs s))) - 1
      else incomingThisInterval s + Z.of_nat (List.length (events cs s)).
Proof.
  induction cs as [|c cs IH]; intros s; cbn [run events].
  - cbn. lia.
  - rewrite IH.
    destruct c as [count clk | time | now | v];
      try (cbn [step]; reflexivity).
    cbn [existsb currentWindow ev_rolled].
    destruct (existsb ev_rolled (events cs (step (Accept count clk) s))) eqn:E.
    + rewrite orb_true_r. reflexivity.
    + rewrite orb_false_r. cbn [step].
      rewrite accept_incomingThisInterval.
      destruct (rolls count clk s); cbn [List.length]; lia.
Qed.

(** After an [accept] that took the rollover branch, every field but the
    bucket and [tokensThisInterval] is as the rollover block left it. *)
Lemma accept_after_rollover (count : Z) (clk : Clock) (s : t) :
  count <= TokenBucket.bucketSize (tokenBucket s) ->
  TokenBucket.interval (tokenBucket s) <= now_accept clk - curIntervalStart s ->
  let w := fst (rollover (now_accept clk) (now_getStat clk)
                  (set_incomingThisInterval (incomingThisInterval s + 1) s)) in
  let s' := after (accept count clk s) in
  accepted s' = accepted w
  /\ incoming s' = incoming w
  /\ averageTime s' = averageTime w
  /\ curIntervalStart s' = curIntervalStart w
  /\ tokensThisInterval s' = (if ret (accept count clk s) then count else 0)
  /\ (ret (accept count clk s) = false
      \/ count <= TokenBucket.tokensPerInterval (tokenBucket s))
  /\ (TokenBucket.tokensPerInterval (tokenBucket s) < count ->
      tokenBucket s' = tokenBucket s).
Proof.
  intros Hsize Hexp. cbn zeta.
  rewrite (accept_sized _ _ _ Hsize). cbn zeta.
  replace (now_accept clk - curIntervalStart s
             >=? TokenBucket.interval (tokenBucket s)) with true
    by (symmetry; rewrite Z.geb_leb; apply Z.leb_le; exact Hexp).
  cbv iota.
  set (w := fst (rollover _ _ _)).
  assert (tokenBucket w = tokenBucket s /\ tokensThisInterval w = 0) as [Hb Hk]
    by (split; reflexivity).
  rewrite Hb, Hk, Z.sub_0_r, Z.gtb_ltb.
  destruct (Z.ltb_spec (TokenBucket.tokensPerInterval (tokenBucket s)) count).
  - cbn [after ret]. repeat split; auto.
  - cbn [after ret]. destruct (fst (TokenBucket.accept _ _ _)); cbn;
      repeat split; auto; lia.
Qed.

(** X4. A snapshot can be read through [getStat] for exactly one interval:
    after an [accept] that rolled the window over at time [now] (positive
    interval), [getStat] answers with the counts of the window that ended at
    every reading before [now + interval], and with zeros from
    [now + interval] on, until another [accept] rolls the window over. *)
Theorem snapshot_readable_for_one_interval
    (count : Z) (clk : Clock) (s : t) (later : Z) :
  0 < TokenBucket.interval (tokenBucket s) ->
  count <= TokenBucket.bucketSize (tokenBucket s) ->
  TokenBucket.interval (tokenBucket s) <= now_accept clk - curIntervalStart s ->
  let s' := after (accept count clk s) in
  let limit := TokenBucket.tokensPerInterval (tokenBucket s) in
  (later < now_accept clk + TokenBucket.interval (tokenBucket s) ->
   getStat later s'
   = Stat.mk (tokensThisInterval s) (incomingThisInterval s + 1)
       (windowAverage s) limit)
  /\ (now_accept clk + TokenBucket.interval (tokenBucket s) <= later ->
      getStat later s' = Stat.mk 0 0 0 limit).
Proof.
  intros Hint Hsize Hexp s' limit.
  destruct (accept_after_rollover count clk s Hsize Hexp)
    as (A & I & V & C & _).
  rewrite rollover_state in A, I, V, C by exact Hint. cbn in A, I, V, C.
  destruct (accept_bucket_frame count clk s) as (_ & Fr & Fi).
  cbn zeta in Fr, Fi. fold s' in A, I, V, C, Fr, Fi.
  unfold getStat. rewrite A, I, V, C, Fr, Fi. subst limit.
  split; intros H; tests; reflexivity.
Qed.

Lemma snapshot_readable_for_one_interval_witness :
  let s1 := run [Accept 1 (instant 0); AddTime 30] sample in
  0 < TokenBucket.interval (tokenBucket s1)
  /\ 1 <= TokenBucket.bucketSize (tokenBucket s1)
  /\ TokenBucket.interval (tokenBucket s1)
       <= now_accept (instant 1200) - curIntervalStart s1
  /\ getStat 2199 (after (accept 1 (instant 1200) s1)) = Stat.mk 1 2 30 2
  /\ getStat 2200 (after (accept 1 (instant 1200) s1)) = Stat.mk 0 0 0 2.
Proof.
  set (s1 := run [Accept 1 (instant 0); AddTime 30] sample).
  assert (0 < TokenBucket.interval (tokenBucket s1)) as H1
    by (vm_compute; reflexivity).
  assert (1 <= TokenBucket.bucketSize (tokenBucket s1)) as H2
    by (vm_compute; discriminate).
  assert (TokenBucket.interval (tokenBucket s1)
            <= now_accept (instant 1200) - curIntervalStart s1) as H3
    by (vm_compute; discriminate).
  destruct (snapshot_readable_for_one_interval 1 (instant 1200) s1 2199
              H1 H2 H3) as [In _].
  destruct (snapshot_readable_for_one_interval 1 (instant 1200) s1 2200
              H1 H2 H3) as [_ Out].
  split; [exact H1|]. split; [exact H2|]. split; [exact H3|].
  split.
  - apply In. vm_compute. reflexivity.
  - apply Out. vm_compute. discriminate.
Defined.

(** X5. A request that the window cap refuses costs nothing: when the
    request passes the size test but exceeds what the window has left (after
    the rollover, if this call performs one), [accept] returns false and hands
    the bucket back untouched, with no drip and no debit, and grants no
    token. *)
Theorem window_cap_refusal_spares_bucket (count : Z) (clk : Clock) (s : t) :
  count <= TokenBucket.bucketSize (tokenBucket s) ->
  TokenBucket.tokensPerInterval (tokenBucket s)
    - (if rolls count clk s then 0 else tokensThisInterval s) < count ->
  let o := accept count clk s in
  ret o = false
  /\ tokenBucket (after o) = tokenBucket s
  /\ tokensThisInterval (after o)
     = (if rolls count clk s then 0 else tokensThisInterval s).
Proof.
  intros Hsize Hover o. subst o.
  assert (ret (accept count clk s) = false) as R.
  { destruct (ret (accept count clk s)) eqn:R; [|reflexivity].
    pose proof (accept_within_cap count clk s R). lia. }
  split; [exact R|]. split.
  - revert Hover. unfold rolls.
    replace (count >? TokenBucket.bucketSize (tokenBucket s)) with false
      by (symmetry; rewrite Z.gtb_ltb; apply Z.ltb_ge; exact Hsize).
    cbn [negb andb]. rewrite (accept_sized _ _ _ Hsize). cbn zeta.
    destruct (now_accept clk - curIntervalStart s >=? _); cbn; intros Hover.
    + replace (count >? TokenBucket.tokensPerInterval (tokenBucket s) - 0)
        with true
        by (symmetry; rewrite Z.gtb_ltb; apply Z.ltb_lt; exact Hover).
      reflexivity.
    + replace (count >? TokenBucket.tokensPerInterval (tokenBucket s)
                          - tokensThisInterval s) with true
        by (symmetry; rewrite Z.gtb_ltb; apply Z.ltb_lt; exact Hover).
      reflexivity.
  - rewrite accept_tokensThisInterval, R. lia.
Qed.

Lemma window_cap_refusal_spares_bucket_witness :
  let s2 := run [Accept 2 (instant 0)] sample in
  1 <= TokenBucket.bucketSize (tokenBucket s2)
  /\ TokenBucket.tokensPerInterval (tokenBucket s2)
       - (if rolls 1 (instant 500) s2 then 0 else tokensThisInterval s2) < 1
  /\ tokenBucket (after (accept 1 (instant 500) s2)) = tokenBucket s2.
Proof.
  set (s2 := run [Accept 2 (instant 0)] sample).
  assert (1 <= TokenBucket.bucketSize (tokenBucket s2)) as H1
    by (vm_compute; discriminate).
  assert (TokenBucket.tokensPerInterval (tokenBucket s2)
            - (if rolls 1 (instant 500) s2 then 0 else tokensThisInterval s2) < 1)
    as H2 by (vm_compute; reflexivity).
  destruct (window_cap_refusal_spares_bucket 1 (instant 500) s2 H1 H2)
    as [_ [B _]].
  split; [exact H1|]. split; [exact H2 | exact B].
Defined.

(** X6. The average stored by a rollover (positive interval) is the mean
    latency per granted token, rounded down: with [n > 0] tokens granted in
    the window that ended, [averageTime * n <= timeSum < (averageTime + 1) * n];
    with no token granted the samples are dropped and the average is 0. *)
Theorem stored_average_is_floor_of_mean (count : Z) (clk : Clock) (s : t) :
  0 < TokenBucket.interval (tokenBucket s) ->
  count <= TokenBucket.bucketSize (tokenBucket s) ->
  TokenBucket.interval (tokenBucket s) <= now_accept clk - curIntervalStart s ->
  let a := averageTime (after (accept count clk s)) in
  (0 < tokensThisInterval s ->
   a * tokensThisInterval s <= timeSum s < (a + 1) * tokensThisInterval s)
  /\ (tokensThisInterval s = 0 -> a = 0).
Proof.
  intros Hint Hsize Hexp a.
  destruct (accept_after_rollover count clk s Hsize Hexp) as (_ & _ & V & _).
  rewrite rollover_state in V by exact Hint.
  cbn [averageTime] in V. fold a in V. unfold windowAverage in V.
  cbn [tokensThisInterval timeSum set_incomingThisInterval] in V.
  split.
  - intros Hn.
    replace (tokensThisInterval s =? 0) with false in V
      by (symmetry; apply Z.eqb_neq; lia).
    rewrite floor_quotient in V by lia. rewrite V.
    pose proof (Z.mul_div_le (timeSum s) (tokensThisInterval s) Hn).
    pose proof (Z.mul_succ_div_gt (timeSum s) (tokensThisInterval s) Hn).
    lia.
  - intros Hn. rewrite Hn in V. exact V.
Qed.

Lemma stored_average_is_floor_of_mean_witness :
  let s1 := run [Accept 2 (instant 0); AddTime 31] sample in
  0 < TokenBucket.interval (tokenBucket s1)
  /\ 1 <= TokenBucket.bucketSize (tokenBucket s1)
  /\ TokenBucket.interval (tokenBucket s1)
       <= now_accept (instant 1200) - curIntervalStart s1
  /\ 0 < tokensThisInterval s1
  /\ averageTime (after (accept 1 (instant 1200) s1)) * tokensThisInterval s1
     <= timeSum s1.
Proof.
  set (s1 := run [Accept 2 (instant 0); AddTime 31] sample).
  assert (0 < TokenBucket.interval (tokenBucket s1)) as H1
    by (vm_compute; reflexivity).
  assert (1 <= TokenBucket.bucketSize (tokenBucket s1)) as H2
    by (vm_compute; discriminate).
  assert (TokenBucket.interval (tokenBucket s1)
            <= now_accept (instant 1200) - curIntervalStart s1) as H3
    by (vm_compute; discriminate).
  assert (0 < tokensThisInterval s1) as H4 by (vm_compute; reflexivity).
  destruct (stored_average_is_floor_of_mean 1 (instant 1200) s1 H1 H2 H3)
    as [Pos _].
  split; [exact H1|]. split; [exact H2|]. split; [exact H3|].
  split; [exact H4|]. exact (proj1 (Pos H4)).
Defined.

(** X7. With an interval that is zero or negative the limiter keeps no
    statistics and no window: every [accept] that passes the size test at or
    after the window start rolls over and stores zeros, the window counter
    restarts at each such call, and [getStat] reports zeros at every later
    reading. *)
Theorem nonpositive_interval_keeps_no_window
    (count : Z) (clk : Clock) (s : t) (later : Z) :
  TokenBucket.interval (tokenBucket s) <= 0 ->
  count <= TokenBucket.bucketSize (tokenBucket s) ->
  curIntervalStart s <= now_accept clk ->
  now_accept clk <= later ->
  let o := accept count clk s in
  (accepted (after o), incoming (after o), averageTime (after o)) = (0, 0, 0)
  /\ tokensThisInterval (after o) = (if ret o then count else 0)
  /\ getStat later (after o)
     = Stat.mk 0 0 0 (TokenBucket.tokensPerInterval (tokenBucket s)).
Proof.
  intros Hint Hsize Hnow Hlater o. subst o.
  assert (TokenBucket.interval (tokenBucket s)
            <= now_accept clk - curIntervalStart s) as Hexp by lia.
  destruct (accept_after_rollover count clk s Hsize Hexp)
    as (A & I & V & C & K & _).
  rewrite rollover_state_degenerate in A, I, V, C by exact Hint.
  cbn in A, I, V, C.
  destruct (accept_bucket_frame count clk s) as (_ & Fr & Fi).
  cbn zeta in Fr, Fi.
  rewrite A, I, V. split; [reflexivity|]. split; [exact K|].
  unfold getStat. rewrite C, Fr, Fi. tests. reflexivity.
Qed.

Lemma nonpositive_interval_keeps_no_window_witness :
  let z := mk (TokenBucket.mk 2 2 0 (inject_Z 2) 0) 0 1 1 0 0 0 true 9 in
  TokenBucket.interval (tokenBucket z) <= 0
  /\ 1 <= TokenBucket.bucketSize (tokenBucket z)
  /\ curIntervalStart z <= now_accept (instant 5)
  /\ now_accept (instant 5) <= 6
  /\ getStat 6 (after (accept 1 (instant 5) z)) = Stat.mk 0 0 0 2.
Proof.
  set (z := mk (TokenBucket.mk 2 2 0 (inject_Z 2) 0) 0 1 1 0 0 0 true 9).
  assert (TokenBucket.interval (tokenBucket z) <= 0) as H1
    by (vm_compute; discriminate).
  assert (1 <= TokenBucket.bucketSize (tokenBucket z)) as H2
    by (vm_compute; discriminate).
  assert (curIntervalStart z <= now_accept (instant 5)) as H3
    by (vm_compute; discriminate).
  assert (now_accept (instant 5) <= 6) as H4 by (vm_compute; discriminate).
  destruct (nonpositive_interval_keeps_no_window 1 (instant 5) z 6
              H1 H2 H3 H4) as [_ [_ G]].
  split; [exact H1|]. split; [exact H2|]. split; [exact H3|].
  split; [exact H4 | exact G].
Defined.

End Windows.

(** * The [throttle] adapter *)

Section Throttled.
Import RateLimiter Trace Throttle.
Context {A B : Type} (fn : A -> B).

Lemma invoke_accept (args : A) (clk : Clock) (l : t) :
  snd (invoke fn args clk l) = after (accept 1 clk l)
  /\ fst (invoke fn args clk l)
     = if ret (accept 1 clk l) then Some (fn args) else None.
Proof. unfold invoke. destruct (ret (accept 1 clk l)); split; reflexivity. Qed.

Lemma invokeAll_cons (args : A) (clk : Clock) (calls : list (A * Clock)) (l : t) :
  invokeAll fn ((args, clk) :: calls) l
  = (fst (invoke fn args clk l)
       :: fst (invokeAll fn calls (snd (invoke fn args clk l))),
     snd (invokeAll fn calls (snd (invoke fn args clk l)))).
Proof.
  cbn [invokeAll]. destruct (invoke fn args clk l) as [r l1]. cbn [fst snd].
  destruct (invokeAll fn calls l1) as [rs l2]. reflexivity.
Qed.

Lemma invoke_budgeted (rate : Z) (args : A) (clk : Clock) (l : t) :
  budgeted rate l -> budgeted rate (snd (invoke fn args clk l)).
Proof.
  intros [Hr [H0 Hcap]]. destruct (invoke_accept args clk l) as [-> _].
  destruct (accept_bucket_frame 1 clk l) as (_ & Fr & _). cbn zeta in Fr.
  unfold budgeted. rewrite Fr, accept_tokensThisInterval, Hr.
  split; [reflexivity|].
  destruct (ret (accept 1 clk l)) eqn:R.
  - pose proof (accept_within_cap 1 clk l R) as Hin. rewrite Hr in Hin.
    destruct (rolls 1 clk l); lia.
  - destruct (rolls 1 clk l); lia.
Qed.

Lemma invokeAll_budgeted (rate : Z) (calls : list (A * Clock)) :
  forall l, budgeted rate l -> budgeted rate (snd (invokeAll fn calls l)).
Proof.
  induction calls as [|[args clk] calls IH]; intros l Hl; [exact Hl|].
  rewrite invokeAll_cons. cbn [snd]. apply IH, invoke_budgeted, Hl.
Qed.

Lemma throttle_budgeted (rate : Z) (interval : option Interval)
    (now_bucket now : Z) (l : t) :
  throttle rate interval now_bucket now = Ok l -> 0 <= rate ->
  budgeted rate l.
Proof.
  unfold throttle, new, TokenBucket.new. intros Hnew Hrate.
  destruct (TokenBucket.resolve _); [|discriminate Hnew].
  injection Hnew as <-. unfold budgeted. cbn. lia.
Qed.

(** Inside one window, each call that reaches [fn] uses up one token of
    the window's budget. *)
Lemma invokeAll_in_window (rate : Z) (calls : list (A * Clock)) :
  forall l,
    budgeted rate l ->
    (forall c, In c calls ->
               now_accept (snd c) - curIntervalStart l
               < TokenBucket.interval (tokenBucket l)) ->
    tokensThisInterval l + Z.of_nat (reached (fst (invokeAll fn calls l)))
    <= rate.
Proof.
  induction calls as [|[args clk] calls IH]; intros l Hl Hwin.
  - cbn. destruct Hl as [_ [_ H]]. lia.
  - rewrite invokeAll_cons. cbn [fst].
    destruct (invoke_accept args clk l) as [Hs Hr].
    assert (rolls 1 clk l = false) as Hroll.
    { unfold rolls.
      replace (now_accept clk - curIntervalStart l
                 >=? TokenBucket.interval (tokenBucket l)) with false
        by (symmetry; rewrite Z.geb_leb; apply Z.leb_gt;
            apply (Hwin (args, clk)); left; reflexivity).
      apply andb_false_r. }
    pose proof (invoke_budgeted rate args clk l Hl) as Hl1.
    specialize (IH (snd (invoke fn args clk l)) Hl1).
    rewrite Hs in IH.
    rewrite accept_curIntervalStart, accept_tokensThisInterval, Hroll in IH.
    destruct (accept_bucket_frame 1 clk l) as (_ & _ & Fi). cbn zeta in Fi.
    rewrite Fi in IH.
    assert (forall c, In c calls ->
                      now_accept (snd c) - curIntervalStart l
                      < TokenBucket.interval (tokenBucket l)) as Hrest
      by (intros c Hc; apply Hwin; right; exact Hc).
    specialize (IH Hrest). rewrite Hs, Hr.
    unfold reached in *. cbn [filter].
    destruct (ret (accept 1 clk l)); cbn [List.length]; lia.
Qed.

(** X8. A throttled function runs at most [rate] times per window:
    whatever calls were made before, the calls already let through in the
    open window plus those let through by any further calls made while that
    window lasts never exceed [rate]. *)
Theorem throttle_runs_at_most_rate_per_window
    (rate : Z) (interval : option Interval) (now_bucket now : Z) (l0 : t)
    (history batch : list (A * Clock)) :
  throttle rate interval now_bucket now = Ok l0 ->
  0 <= rate ->
  let l := snd (invokeAll fn history l0) in
  (forall c, In c batch ->
             now_accept (snd c) - curIntervalStart l
             < TokenBucket.interval (tokenBucket l)) ->
  0 <= tokensThisInterval l
  /\ tokensThisInterval l + Z.of_nat (reached (fst (invokeAll fn batch l)))
     <= rate.
Proof.
  intros Hnew Hrate l Hwin.
  assert (budgeted rate l) as Hl
    by (apply invokeAll_budgeted, (throttle_budgeted _ _ _ _ _ Hnew Hrate)).
  split; [destruct Hl as [_ [H _]]; exact H|].
  apply invokeAll_in_window; assumption.
Qed.

(** A refused call inside the window, whether the size test or the window
    test refuses it, moves the incoming counter only. *)
Lemma accept_one_exhausted (n ivl t0 : Z) (clk : Clock) (l : t) :
  inWindow n ivl t0 n l ->
  now_accept clk - t0 < ivl ->
  accept 1 clk l
  = Outcome false [] (set_incomingThisInterval (incomingThisInterval l + 1) l).
Proof.
  intros (Hb & Hr & Hi & Hs & Hk & _) Hwin.
  destruct (Z.lt_ge_cases (TokenBucket.bucketSize (tokenBucket l)) 1) as [H|H].
  - apply accept_oversized. exact H.
  - apply accept_over_cap; [exact H | lia | lia].
Qed.

Lemma invokeAll_burst (rate ivl t0 hi : Z) (calls : list (A * Clock)) :
  forall (l : t) (k prev : Z),
    inWindow rate ivl t0 k l ->
    0 < ivl -> 0 <= k <= rate ->
    TokenBucket.lastDrip (tokenBucket l) <= prev ->
    hi < t0 + ivl ->
    inOrderWithin prev hi (map snd calls) ->
    fst (invokeAll fn calls l)
    = map (fun c => Some (fn (fst c))) (firstn (Z.to_nat (rate - k)) calls)
      ++ repeat None (List.length calls - Z.to_nat (rate - k)).
Proof.
  induction calls as [|[args clk] calls IH];
    intros l k prev Hin Hivl Hk Hdrip Hhi Hord.
  - cbn. rewrite firstn_nil. reflexivity.
  - cbn [map snd inOrderWithin] in Hord.
    destruct Hord as [(T1 & T2 & T3 & T4) Hrest].
    rewrite invokeAll_cons. cbn [fst].
    destruct (invoke_accept args clk l) as [Hs Hr]. rewrite Hs, Hr.
    destruct (Z.eq_dec k rate) as [-> | Hne].
    + rewrite (accept_one_exhausted rate ivl t0 clk l Hin) by lia.
      cbn [ret after].
      assert (inWindow rate ivl t0 rate
                (set_incomingThisInterval (incomingThisInterval l + 1) l))
        as Hin'.
      { destruct Hin as (Hb & Hrt & Hi & Hc & Hn & Hq).
        unfold inWindow. cbn. auto 7. }
      assert (TokenBucket.lastDrip
                (tokenBucket
                   (set_incomingThisInterval (incomingThisInterval l + 1) l))
              <= now_drip clk) as Hdrip' by (cbn; lia).
      rewrite (IH _ rate (now_drip clk) Hin' Hivl Hk Hdrip' Hhi Hrest).
      rewrite Z.sub_diag. cbn. rewrite Nat.sub_0_r. reflexivity.
    + destruct (accept_inWindow rate ivl t0 k 1 clk l Hin)
        as (R & Hin' & Hlast); try lia.
      rewrite R.
      assert (0 <= k + 1 <= rate) as Hk' by lia.
      assert (TokenBucket.lastDrip (tokenBucket (after (accept 1 clk l)))
              <= now_drip clk) as Hdrip' by lia.
      rewrite (IH _ (k + 1) (now_drip clk) Hin' Hivl Hk' Hdrip' Hhi Hrest).
      replace (Z.to_nat (rate - k)) with (S (Z.to_nat (rate - (k + 1))))
        by lia.
      reflexivity.
Qed.

(** X9. A burst on a fresh throttle: of any calls made in order while the
    first window lasts (positive interval, non-negative rate), exactly the
    first [rate] reach [fn] and return its result; every later one returns
    nothing. *)
Theorem throttle_lets_first_rate_calls_through
    (rate : Z) (interval : option Interval) (now_bucket now hi : Z) (l0 : t)
    (calls : list (A * Clock)) :
  throttle rate interval now_bucket now = Ok l0 ->
  0 <= rate ->
  now_bucket <= now ->
  0 < TokenBucket.interval (tokenBucket l0) ->
  hi < now + TokenBucket.interval (tokenBucket l0) ->
  inOrderWithin now hi (map snd calls) ->
  fst (invokeAll fn calls l0)
  = map (fun c => Some (fn (fst c))) (firstn (Z.to_nat rate) calls)
    ++ repeat None (List.length calls - Z.to_nat rate).
Proof.
  intros Hnew Hrate Hb Hivl Hhi Hord.
  destruct (new_inWindow _ _ _ _ _ _ Hnew) as [Hin Hlast].
  rewrite (invokeAll_burst rate _ now hi calls l0 0 now Hin Hivl);
    try assumption; try lia.
  rewrite Z.sub_0_r. reflexivity.
Qed.

End Throttled.

Section ThrottleWitnesses.
Import RateLimiter Throttle.

Lemma throttle_runs_at_most_rate_per_window_witness :
  throttle 2 None 0 0 = Ok Throttle.sample
  /\ 0 <= 2
  /\ tokensThisInterval
       (snd (invokeAll Z.succ [(0, instant 10)] Throttle.sample))
     + Z.of_nat
         (reached
            (fst (invokeAll Z.succ
                    [(1, instant 20); (2, instant 30); (3, instant 40)]
                    (snd (invokeAll Z.succ [(0, instant 10)] Throttle.sample)))))
     <= 2.
Proof.
  assert (0 <= 2) as H2 by discriminate.
  assert (forall c : Z * Clock,
             In c [(1, instant 20); (2, instant 30); (3, instant 40)] ->
             now_accept (snd c)
             - curIntervalStart
                 (snd (invokeAll Z.succ [(0, instant 10)] Throttle.sample))
             < TokenBucket.interval
                 (tokenBucket
                    (snd (invokeAll Z.succ [(0, instant 10)] Throttle.sample))))
    as H3.
  { intros c [<- | [<- | [<- | []]]]; vm_compute; reflexivity. }
  destruct (throttle_runs_at_most_rate_per_window Z.succ 2 None 0 0
              Throttle.sample [(0, instant 10)]
              [(1, instant 20); (2, instant 30); (3, instant 40)]
              eq_refl H2 H3) as [_ Le].
  split; [reflexivity|]. split; [exact H2 | exact Le].
Defined.

Lemma throttle_lets_first_rate_calls_through_witness :
  throttle 2 None 0 0 = Ok Throttle.sample
  /\ inOrderWithin 0 999
       (map snd [(5, instant 20); (6, instant 30); (7, instant 999)])
  /\ fst (invokeAll Z.succ [(5, instant 20); (6, instant 30); (7, instant 999)]
            Throttle.sample)
     = [Some 6; Some 7; None].
Proof.
  assert (0 <= 2) as H2 by discriminate.
  assert (0 <= 0) as H3 by discriminate.
  assert (0 < TokenBucket.interval (tokenBucket Throttle.sample)) as H4
    by (vm_compute; reflexivity).
  assert (999 < 0 + TokenBucket.interval (tokenBucket Throttle.sample)) as H5
    by (vm_compute; reflexivity).
  assert (inOrderWithin 0 999
            (map snd [(5, instant 20); (6, instant 30); (7, instant 999)]))
    as H6 by (cbn; repeat split; discriminate).
  split; [reflexivity|]. split; [exact H6|].
  exact (throttle_lets_first_rate_calls_through Z.succ 2 None 0 0 999
           Throttle.sample [(5, instant 20); (6, instant 30); (7, instant 999)]
           eq_refl H2 H3 H4 H5 H6).
Defined.

(** X10. [throttle] never hands its limiter a zero interval: a missing
    interval, the number 0 and the empty string all give 1000 ms, and whenever
    the limiter is built its interval is not 0; the limiter has no stat
    observer and its limit is [rate]. *)
Theorem throttle_interval_never_zero
    (rate : Z) (interval : option Interval) (now_bucket now : Z) (l : t) :
  throttle rate interval now_bucket now = Ok l ->
  TokenBucket.interval (tokenBucket l) <> 0
  /\ (interval = None \/ interval = Some (Ms 0)
      \/ interval = Some (Unit EmptyString) ->
      TokenBucket.interval (tokenBucket l) = 1000)
  /\ statCallback l = false
  /\ get_limit l = rate.
Proof.
  unfold throttle, new, TokenBucket.new. intros Hnew.
  destruct (TokenBucket.resolve (orDefault interval)) as [ms|e] eqn:E;
    [|discriminate Hnew].
  injection Hnew as <-. cbn.
  assert (ms <> 0
          /\ (interval = None \/ interval = Some (Ms 0)
              \/ interval = Some (Unit EmptyString) -> ms = 1000)) as [H0 Hd].
  { destruct interval as [[n | name]|]; cbn in E.
    - destruct n; cbn in E; injection E as <-;
        (split; [discriminate | intros [H | [H | H]]; try discriminate H]);
        reflexivity.
    - destruct name as [|a name]; cbn [orDefault TokenBucket.resolve] in E.
      + injection E as <-. split; [discriminate | reflexivity].
      + split.
        * repeat match type of E with
                 | (if ?b then _ else _) = _ => destruct b
                 end; try discriminate E; injection E as <-; discriminate.
        * intros [H | [H | H]]; discriminate H.
    - injection E as <-. split; [discriminate | reflexivity]. }
  repeat split; assumption.
Qed.

Lemma throttle_interval_never_zero_witness :
  throttle 3 (Some (Ms 0)) 7 7
  = Ok (mk (TokenBucket.mk 3 3 1000 (inject_Z 3) 7) 7 0 0 0 0 0 false 0)
  /\ TokenBucket.interval
       (tokenBucket
          (mk (TokenBucket.mk 3 3 1000 (inject_Z 3) 7) 7 0 0 0 0 0 false 0))
     <> 0.
Proof.
  split; [reflexivity|].
  exact (proj1 (throttle_interval_never_zero 3 (Some (Ms 0)) 7 7 _ eq_refl)).
Defined.

End ThrottleWitnesses.

(** * The [lib/rate-limiter.js] revision *)

Section Lib.
Import LibRateLimiter LibTrace.

Lemma lib_step_forget (c : Trace.call) (s : t) :
  forget (step (ofShared c) s) = Trace.step c (forget s).
Proof.
  destruct c as [count clk | time | now | v]; cbn [ofShared step Trace.step];
    try reflexivity.
  rewrite lib_accept_forget. reflexivity.
Qed.

Lemma lib_run_forget (cs : list Trace.call) :
  forall s : t,
    forget (run (map ofShared cs) s) = Trace.run cs (forget s)
    /\ answers (map ofShared cs) s = History.answers cs (forget s)
    /\ notifications (map ofShared cs) s = History.notifications cs (forget s).
Proof.
  induction cs as [|c cs IH]; intros s; [repeat split; reflexivity|].
  destruct (IH (step (ofShared c) s)) as (R & An & No).
  rewrite lib_step_forget in R, An, No.
  destruct c as [count clk | time | now | v];
    cbn [map run answers notifications ofShared Trace.run History.answers
           History.notifications];
    cbn [ofShared] in R, An, No;
    rewrite R, An, No; try (repeat split; reflexivity).
  pose proof (lib_accept_forget count clk s) as E.
  assert (RateLimiter.ret (RateLimiter.accept count clk (forget s))
          = ret (accept count clk s)) as ->
    by (rewrite E; reflexivity).
  assert (RateLimiter.fired (RateLimiter.accept count clk (forget s))
          = fired (accept count clk s)) as ->
    by (rewrite E; reflexivity).
  repeat split; reflexivity.
Qed.

(** X11. The two revisions of the limiter cannot be told apart through the
    calls they share.  Built with the same arguments they both throw or both
    succeed, and over any sequence of [accept], [addTime], [getStat] and
    [setLimit] (named [setTokensPerInterval] in [lib/rate-limiter.js]) they
    return the same values, call the observer with the same arguments and end
    with the same values in the fields they share. *)
Theorem revisions_agree_on_shared_calls
    (limit : Z) (i : Interval) (cb : bool) (now_bucket now : Z)
    (cs : list Trace.call) :
  match new limit i cb now_bucket now,
        RateLimiter.new limit i cb now_bucket now with
  | Ok sl, Ok s =>
      forget (run (map ofShared cs) sl) = Trace.run cs s
      /\ answers (map ofShared cs) sl = History.answers cs s
      /\ notifications (map ofShared cs) sl = History.notifications cs s
  | Throw e, Throw e' => e = e'
  | _, _ => False
  end.
Proof.
  pose proof (lib_new_forget limit i cb now_bucket now) as H.
  destruct (new limit i cb now_bucket now) as [sl|e]; rewrite H.
  - apply lib_run_forget.
  - reflexivity.
Qed.

(** Reduce the field reads of a limiter that is given by its setters. *)
Ltac lib_fields :=
  cbn [tokenBucket curIntervalStart _tokensPerIntervalConfig tokensThisInterval
       incomingThisInterval _timeSum incoming accepted averageTime statCallback
       _goingDown set_tokenBucket set_goingDown set_tokensPerIntervalConfig
       TokenBucket.bucketSize TokenBucket.tokensPerInterval TokenBucket.interval
       TokenBucket.content TokenBucket.lastDrip
       TokenBucket.set_tokensPerInterval TokenBucket.set_bucketSize].

Lemma up_state (count max : Z) (s : t) :
  up count max s
  = set_tokenBucket
      (TokenBucket.set_tokensPerInterval
         (Z.min (TokenBucket.tokensPerInterval (tokenBucket s) + count) max)
         (tokenBucket s)) s.
Proof.
  unfold up. cbn. rewrite Z.gtb_ltb.
  destruct (Z.ltb_spec max (TokenBucket.tokensPerInterval (tokenBucket s) + count)).
  - rewrite Z.min_r by lia. reflexivity.
  - rewrite Z.min_l by lia. reflexivity.
Qed.

Lemma down_state (count min : Z) (s : t) :
  down count min s
  = set_goingDown true
      (set_tokenBucket
         (TokenBucket.set_tokensPerInterval
            (Z.max ((if _goingDown s
                     then TokenBucket.tokensPerInterval (tokenBucket s)
                     else tokensThisInterval s) - count) min)
            (tokenBucket s)) s).
Proof.
  unfold down. destruct (_goingDown s); cbn; split_test.
  - rewrite Z.max_r by lia. reflexivity.
  - rewrite Z.max_l by lia. reflexivity.
  - rewrite Z.max_r by lia. reflexivity.
  - rewrite Z.max_l by lia. reflexivity.
Qed.

Lemma lib_accept_oversized (count : Z) (clk : Clock) (s : t) :
  TokenBucket.bucketSize (tokenBucket s) < count ->
  ret (accept count clk s) = false.
Proof.
  intros H. pose proof (lib_accept_forget count clk s) as E.
  rewrite accept_oversized in E by exact H.
  injection E as E _ _. symmetry. exact E.
Qed.

Lemma lib_accept_within_cap (count : Z) (clk : Clock) (s : t) :
  ret (accept count clk s) = true ->
  (if rolls count clk s then 0 else tokensThisInterval s) + count
  <= TokenBucket.tokensPerInterval (tokenBucket s).
Proof.
  intros R. pose proof (lib_accept_forget count clk s) as E.
  apply (accept_within_cap count clk (forget s)).
  rewrite E. exact R.
Qed.

(** The rollover branch, and only it, clears [_goingDown]; [accept]
    restarts the window counter there. *)
Lemma lib_accept_window (count : Z) (clk : Clock) (s : t) :
  _goingDown (after (accept count clk s))
  = (if rolls count clk s then false else _goingDown s)
  /\ tokensThisInterval (after (accept count clk s))
     = (if rolls count clk s then 0 else tokensThisInterval s)
       + (if ret (accept count clk s) then count else 0).
Proof.
  unfold accept, rolls, rollover. cbn.
  destruct (count >? TokenBucket.bucketSize (tokenBucket s)); cbn;
    [split; [reflexivity | lia]|].
  destruct (now_accept clk - curIntervalStart s >=? _); cbn;
    destruct (count >? _); cbn; try (split; [reflexivity | lia]);
    destruct (TokenBucket.accept _ _ _) as [[|] b]; cbn;
    split; try reflexivity; lia.
Qed.

(** X12. [up] raises the window cap but never the capacity of the bucket:
    after one or more [up(count, max)] with [count >= 0] the limit is
    [min(limit + n * count, max)], [bucketSize] is what it was, and a request
    above [bucketSize] is still refused, even when it is within the raised
    limit. *)
Theorem up_raises_cap_not_capacity (count max : Z) (n : nat) :
  0 <= count ->
  forall s : t,
    let s' := run (repeat (Up count max) (S n)) s in
    TokenBucket.tokensPerInterval (tokenBucket s')
    = Z.min (TokenBucket.tokensPerInterval (tokenBucket s)
             + Z.of_nat (S n) * count) max
    /\ TokenBucket.bucketSize (tokenBucket s')
       = TokenBucket.bucketSize (tokenBucket s)
    /\ (forall (request : Z) (clk : Clock),
           TokenBucket.bucketSize (tokenBucket s) < request ->
           ret (accept request clk s') = false).
Proof.
  intros Hc.
  assert (forall s : t,
             TokenBucket.tokensPerInterval
               (tokenBucket (run (repeat (Up count max) (S n)) s))
             = Z.min (TokenBucket.tokensPerInterval (tokenBucket s)
                      + Z.of_nat (S n) * count) max
             /\ TokenBucket.bucketSize
                  (tokenBucket (run (repeat (Up count max) (S n)) s))
                = TokenBucket.bucketSize (tokenBucket s)) as H.
  { induction n as [|n IH]; intros s.
    - cbn [repeat run step]. rewrite up_state. lib_fields.
      split; [f_equal; lia | reflexivity].
    - change (repeat (Up count max) (S (S n)))
        with (Up count max :: repeat (Up count max) (S n)).
      cbn [run step]. destruct (IH (up count max s)) as [-> ->].
      rewrite up_state. lib_fields. split; [|reflexivity].
      rewrite (Nat2Z.inj_succ (S n)), Z.mul_succ_l.
      pose proof (Z.mul_nonneg_nonneg (Z.of_nat (S n)) count
                    (Nat2Z.is_nonneg _) Hc).
      lia. }
  intros s s'. destruct (H s) as [Hr Hb]. fold s' in Hr, Hb.
  split; [exact Hr|]. split; [exact Hb|].
  intros request clk Hover. apply lib_accept_oversized. rewrite Hb. exact Hover.
Qed.

(** X13. [down] steps the limit down from the tokens granted in the open
    window, not from the limit in force: the first [down(count, min)] of a
    window sets the limit to [max(granted - count, min)], and [n + 1] of them
    in a row ([count >= 0]) to [max(base - (n + 1) * count, min)], where
    [base] is the granted tokens, or the limit if [down] was already used in
    this window.  The bucket capacity and the window counter are not
    touched. *)
Theorem down_steps_from_granted (count min : Z) (n : nat) :
  0 <= count ->
  forall s : t,
    let base := if _goingDown s
                then TokenBucket.tokensPerInterval (tokenBucket s)
                else tokensThisInterval s in
    let s' := run (repeat (Down count min) (S n)) s in
    TokenBucket.tokensPerInterval (tokenBucket s')
    = Z.max (base - Z.of_nat (S n) * count) min
    /\ _goingDown s' = true
    /\ TokenBucket.bucketSize (tokenBucket s')
       = TokenBucket.bucketSize (tokenBucket s)
    /\ tokensThisInterval s' = tokensThisInterval s.
Proof.
  intros Hc. induction n as [|n IH]; intros s base s'; subst s'.
  - cbn [repeat run step]. rewrite down_state. lib_fields. fold base.
    repeat split. f_equal. lia.
  - change (repeat (Down count min) (S (S n)))
      with (Down count min :: repeat (Down count min) (S n)).
    cbn [run step].
    destruct (IH (down count min s)) as (-> & -> & -> & ->).
    rewrite down_state. lib_fields. fold base. repeat split.
    rewrite (Nat2Z.inj_succ (S n)), Z.mul_succ_l.
    pose proof (Z.mul_nonneg_nonneg (Z.of_nat (S n)) count
                  (Nat2Z.is_nonneg _) Hc).
    lia.
Qed.

(** X14. The first [down] of a window closes the window: when [down] has
    not been used since the last rollover, [count >= 0] and [min] is not
    above the tokens already granted, then after [down(count, min)] no
    positive request is granted for as long as the window lasts. *)
Theorem first_down_closes_window
    (count min request : Z) (clk : Clock) (s : t) :
  _goingDown s = false ->
  0 <= count ->
  min <= tokensThisInterval s ->
  0 < request ->
  now_accept clk - curIntervalStart s < TokenBucket.interval (tokenBucket s) ->
  ret (accept request clk (down count min s)) = false.
Proof.
  intros Hg Hc Hmin Hreq Hopen.
  destruct (ret (accept request clk (down count min s))) eqn:R; [|reflexivity].
  pose proof (lib_accept_within_cap request clk (down count min s) R) as Hin.
  rewrite down_state in Hin. unfold rolls in Hin. lib_fields. rewrite Hg in Hin.
  cbn [tokenBucket curIntervalStart tokensThisInterval set_tokenBucket
       set_goingDown TokenBucket.bucketSize TokenBucket.tokensPerInterval
       TokenBucket.interval TokenBucket.set_tokensPerInterval] in Hin.
  replace (now_accept clk - curIntervalStart s
             >=? TokenBucket.interval (tokenBucket s)) with false in Hin
    by (symmetry; rewrite Z.geb_leb; apply Z.leb_gt; exact Hopen).
  rewrite andb_false_r in Hin. lia.
Qed.

(** X15. A rollover re-arms [down]: an [accept] that rolls the window over
    clears [_goingDown], so the next [down(count, min)] forgets the limit in
    force and sets it to [max(granted - count, min)], where [granted] is what
    that [accept] itself was granted (its request, or 0). *)
Theorem rollover_rearms_down
    (request count min : Z) (clk : Clock) (s : t) :
  request <= TokenBucket.bucketSize (tokenBucket s) ->
  TokenBucket.interval (tokenBucket s) <= now_accept clk - curIntervalStart s ->
  let o := accept request clk s in
  _goingDown (after o) = false
  /\ TokenBucket.tokensPerInterval (tokenBucket (down count min (after o)))
     = Z.max ((if ret o then request else 0) - count) min.
Proof.
  intros Hsize Hexp o.
  destruct (lib_accept_window request clk s) as [Hg Hk]. fold o in Hg, Hk.
  assert (rolls request clk s = true) as Hroll.
  { unfold rolls.
    replace (request >? TokenBucket.bucketSize (tokenBucket s)) with false
      by (symmetry; rewrite Z.gtb_ltb; apply Z.ltb_ge; exact Hsize).
    rewrite Z.geb_leb. apply Z.leb_le. exact Hexp. }
  rewrite Hroll in Hg, Hk. split; [exact Hg|].
  rewrite down_state. lib_fields. rewrite Hg, Hk. f_equal.
Qed.

Lemma updateLimit_same (v : Z) (s : t) :
  _tokensPerIntervalConfig s = v -> updateLimit v s = s.
Proof. intros E. unfold updateLimit. rewrite E, Z.eqb_refl. reflexivity. Qed.

Lemma updateLimit_config (v : Z) (s : t) :
  _tokensPerIntervalConfig (updateLimit v s) = v.
Proof.
  unfold updateLimit.
  destruct (Z.eqb_spec (_tokensPerIntervalConfig s) v) as [E | E];
    [exact E | reflexivity].
Qed.

(** X16. [updateLimit] never raises the limit in force.  With the value
    already configured it changes nothing; with a new value [v] it records
    [v] and sets both the limit and the bucket capacity to [min(limit, v)], so
    configuring a higher value leaves the limit where it was. *)
Theorem updateLimit_never_raises (v : Z) (s : t) :
  let s' := updateLimit v s in
  TokenBucket.tokensPerInterval (tokenBucket s')
    <= TokenBucket.tokensPerInterval (tokenBucket s)
  /\ (_tokensPerIntervalConfig s = v -> s' = s)
  /\ (_tokensPerIntervalConfig s <> v ->
      _tokensPerIntervalConfig s' = v
      /\ TokenBucket.tokensPerInterval (tokenBucket s')
         = Z.min (TokenBucket.tokensPerInterval (tokenBucket s)) v
      /\ TokenBucket.bucketSize (tokenBucket s')
         = Z.min (TokenBucket.tokensPerInterval (tokenBucket s)) v).
Proof.
  cbn zeta. unfold updateLimit.
  destruct (Z.eqb_spec (_tokensPerIntervalConfig s) v) as [E | E].
  - split; [lia|]. split; [reflexivity | intros H; contradiction].
  - unfold setTokensPerInterval. lib_fields.
    split; [lia|]. split; [intros H; contradiction | auto].
Qed.

(** X17. [updateLimit] with an unchanged value is idle: applied twice with
    the same value it does what it does once, and with the configured value
    it does not undo an [up] or a [down] made since. *)
Theorem updateLimit_idle_on_same_value (v count bound : Z) (s : t) :
  updateLimit v (updateLimit v s) = updateLimit v s
  /\ updateLimit (_tokensPerIntervalConfig s) (up count bound s)
     = up count bound s
  /\ updateLimit (_tokensPerIntervalConfig s) (down count bound s)
     = down count bound s.
Proof.
  split; [|split].
  - apply updateLimit_same, updateLimit_config.
  - rewrite up_state. unfold updateLimit. lib_fields.
    rewrite Z.eqb_refl. reflexivity.
  - rewrite down_state. unfold updateLimit. lib_fields.
    rewrite Z.eqb_refl. reflexivity.
Qed.

End Lib.

Section LibWitnesses.
Import LibRateLimiter LibTrace.

Lemma libSample_is_new : new 2 (Ms 1000) true 0 0 = Ok libSample.
Proof. reflexivity. Qed.

Lemma up_raises_cap_not_capacity_witness :
  0 <= 1
  /\ TokenBucket.tokensPerInterval
       (tokenBucket (run (repeat (Up 1 5) 4) libSample)) = 5
  /\ ret (accept 3 (instant 10) (run (repeat (Up 1 5) 4) libSample)) = false.
Proof.
  assert (0 <= 1) as H by discriminate.
  destruct (up_raises_cap_not_capacity 1 5 3 H libSample) as (R & _ & Over).
  split; [exact H|]. split; [exact R|].
  apply Over. vm_compute. reflexivity.
Defined.

Lemma down_steps_from_granted_witness :
  0 <= 1
  /\ TokenBucket.tokensPerInterval
       (tokenBucket
          (run (repeat (Down 1 0) 2) (after (accept 2 (instant 0) libSample))))
     = 0.
Proof.
  assert (0 <= 1) as H by discriminate.
  destruct (down_steps_from_granted 1 0 1 H
              (after (accept 2 (instant 0) libSample))) as (R & _).
  split; [exact H | exact R].
Defined.

Lemma first_down_closes_window_witness :
  let s := after (accept 1 (instant 0) libSample) in
  _goingDown s = false
  /\ 0 <= 1
  /\ 0 <= tokensThisInterval s
  /\ 0 < 1
  /\ now_accept (instant 500) - curIntervalStart s
     < TokenBucket.interval (tokenBucket s)
  /\ ret (accept 1 (instant 500) (down 1 0 s)) = false.
Proof.
  set (s := after (accept 1 (instant 0) libSample)).
  assert (_goingDown s = false) as H1 by reflexivity.
  assert (0 <= 1) as H2 by discriminate.
  assert (0 <= tokensThisInterval s) as H3 by (vm_compute; discriminate).
  assert (0 < 1) as H4 by reflexivity.
  assert (now_accept (instant 500) - curIntervalStart s
          < TokenBucket.interval (tokenBucket s)) as H5
    by (vm_compute; reflexivity).
  split; [exact H1|]. split; [exact H2|]. split; [exact H3|].
  split; [exact H4|]. split; [exact H5|].
  exact (first_down_closes_window 1 0 1 (instant 500) s H1 H2 H3 H4 H5).
Defined.

Lemma rollover_rearms_down_witness :
  let s := down 1 0 (after (accept 2 (instant 0) (up 4 6 libSample))) in
  1 <= TokenBucket.bucketSize (tokenBucket s)
  /\ TokenBucket.interval (tokenBucket s)
       <= now_accept (instant 1500) - curIntervalStart s
  /\ _goingDown s = true
  /\ _goingDown (after (accept 1 (instant 1500) s)) = false.
Proof.
  set (s := down 1 0 (after (accept 2 (instant 0) (up 4 6 libSample)))).
  assert (1 <= TokenBucket.bucketSize (tokenBucket s)) as H1
    by (vm_compute; discriminate).
  assert (TokenBucket.interval (tokenBucket s)
            <= now_accept (instant 1500) - curIntervalStart s) as H2
    by (vm_compute; discriminate).
  destruct (rollover_rearms_down 1 1 0 (instant 1500) s H1 H2) as [G _].
  split; [exact H1|]. split; [exact H2|]. split; [reflexivity | exact G].
Defined.

Lemma updateLimit_never_raises_witness :
  _tokensPerIntervalConfig libSample <> 5
  /\ TokenBucket.tokensPerInterval (tokenBucket (updateLimit 5 libSample)) = 2
  /\ _tokensPerIntervalConfig (up 3 9 libSample) = 2
  /\ updateLimit 2 (up 3 9 libSample) = up 3 9 libSample.
Proof.
  assert (_tokensPerIntervalConfig libSample <> 5) as H1 by discriminate.
  assert (_tokensPerIntervalConfig (up 3 9 libSample) = 2) as H2 by reflexivity.
  destruct (updateLimit_never_raises 5 libSample) as (_ & _ & New).
  destruct (updateLimit_never_raises 2 (up 3 9 libSample)) as (_ & Same & _).
  split; [exact H1|]. split; [exact (proj1 (proj2 (New H1)))|].
  split; [exact H2 | exact (Same H2)].
Defined.

End LibWitnesses.

(** * The window start along call sequences *)

Section Chronology.
Import RateLimiter Trace History.

Lemma run_app (cs1 cs2 : list call) :
  forall s, run (cs1 ++ cs2) s = run cs2 (run cs1 s).
Proof.
  induction cs1 as [|c cs1 IH]; intros s; [reflexivity|].
  cbn [app run]. apply IH.
Qed.

Lemma lastReading_app (cs1 cs2 : list call) :
  forall t0, lastReading t0 (cs1 ++ cs2) = lastReading (lastReading t0 cs1) cs2.
Proof.
  induction cs1 as [|c cs1 IH]; intros t0; [reflexivity|].
  destruct c; cbn [app lastReading]; apply IH.
Qed.

Lemma chronological_app (cs1 cs2 : list call) :
  forall t0,
    chronological t0 (cs1 ++ cs2) ->
    chronological t0 cs1 /\ chronological (lastReading t0 cs1) cs2.
Proof.
  induction cs1 as [|c cs1 IH]; intros t0 H; [split; [exact I | exact H]|].
  destruct c as [count clk | time | now | v];
    cbn [app chronological lastReading] in *.
  - destruct H as [H0 H]. destruct (IH _ H) as [H1 H2]. auto.
  - apply IH, H.
  - destruct H as [H0 H]. destruct (IH _ H) as [H1 H2]. auto.
  - apply IH, H.
Qed.

Lemma run_window_start (cs : list call) :
  forall t0 s,
    curIntervalStart s <= t0 -> chronological t0 cs ->
    curIntervalStart s <= curIntervalStart (run cs s) <= lastReading t0 cs.
Proof.
  induction cs as [|c cs IH]; intros t0 s Hs Hcs; cbn [run lastReading]; [lia|].
  destruct c as [count clk | time | now | v]; cbn [chronological step] in *.
  - destruct Hcs as [Hnow Hrest].
    assert (curIntervalStart s <= curIntervalStart (after (accept count clk s))
            <= now_accept clk) as [H1 H2].
    { rewrite accept_curIntervalStart. destruct (rolls count clk s); lia. }
    destruct (IH (now_accept clk) _ H2 Hrest). lia.
  - exact (IH t0 (addTime time s) Hs Hcs).
  - destruct Hcs as [Hnow Hrest].
    assert (curIntervalStart s <= now) as Hs' by lia.
    exact (IH now s Hs' Hrest).
  - exact (IH t0 (setLimit v s) Hs Hcs).
Qed.

(** X18. With a clock that does not go back, the window start never moves
    back and never runs ahead of the clock: between any two observation points
    of a call sequence [curIntervalStart] does not decrease, and at the end it
    is at most the last time read. *)
Theorem window_start_follows_clock
    (cs1 cs2 : list call) (t0 : Z) (s : t) :
  curIntervalStart s <= t0 ->
  chronological t0 (cs1 ++ cs2) ->
  curIntervalStart (run cs1 s) <= curIntervalStart (run (cs1 ++ cs2) s)
  /\ curIntervalStart (run (cs1 ++ cs2) s) <= lastReading t0 (cs1 ++ cs2).
Proof.
  intros Hs Hcs.
  destruct (chronological_app cs1 cs2 t0 Hcs) as [H1 H2].
  destruct (run_window_start cs1 t0 s Hs H1) as [_ Hmid].
  rewrite run_app, lastReading_app.
  exact (run_window_start cs2 _ _ Hmid H2).
Qed.

Lemma window_start_follows_clock_witness :
  curIntervalStart sample <= 0
  /\ chronological 0
       ([Accept 1 (instant 10); GetStat 400; Accept 1 (instant 1200)]
          ++ [SetLimit 4; Accept 9 (instant 5000); Accept 1 (instant 5001)])
  /\ curIntervalStart
       (run [Accept 1 (instant 10); GetStat 400; Accept 1 (instant 1200)] sample)
     <= curIntervalStart
          (run ([Accept 1 (instant 10); GetStat 400; Accept 1 (instant 1200)]
                  ++ [SetLimit 4; Accept 9 (instant 5000);
                      Accept 1 (instant 5001)])
             sample).
Proof.
  assert (curIntervalStart sample <= 0) as H1 by (vm_compute; discriminate).
  assert (chronological 0
            ([Accept 1 (instant 10); GetStat 400; Accept 1 (instant 1200)]
               ++ [SetLimit 4; Accept 9 (instant 5000);
                   Accept 1 (instant 5001)]))
    as H2 by (cbn; repeat split; discriminate).
  split; [exact H1|]. split; [exact H2|].
  exact (proj1 (window_start_follows_clock _ _ 0 sample H1 H2)).
Defined.

End Chronology.
